(** * The deployment pipeline of lambda-ansible-deployment

    A shallow embedding of the two AWS Lambda handlers of the repository,
    [src/lambda/ansible_lambda.py] (secrets from Secrets Manager, embedded
    automation bundle) and [src/lambda/deployment_lambda.py] (parameters from
    SSM, bundle fetched from S3), and the properties of the deployment
    pipeline stated for them.

    Python values are an inductive type, exceptions a result type, and the
    file system, the process working directory and the calls made to the
    secret store are an explicit state threaded through a small
    state-and-exception monad in which a raised exception keeps the state
    reached so far.  Everything the handlers obtain from outside (secret
    store, S3, the JSON parser, the external tool, the operating system) is
    a field of the [platform] record, over which the theorems quantify. *)

From Stdlib Require Import List String Ascii ZArith Bool Arith Lia DecimalString.
Import ListNotations.
Open Scope string_scope.
Set Warnings "-register-all".

(** ** Text *)

(** A Python [str] is a [string], one [ascii] per character; the case
    mappings and [strip] below are those of Python on ASCII text. *)

Definition ascii_between (lo hi c : ascii) : bool :=
  ((nat_of_ascii lo <=? nat_of_ascii c) && (nat_of_ascii c <=? nat_of_ascii hi))%nat.

Definition ascii_lower (c : ascii) : ascii :=
  if ascii_between "A"%char "Z"%char c then ascii_of_nat (nat_of_ascii c + 32) else c.

Definition ascii_upper (c : ascii) : ascii :=
  if ascii_between "a"%char "z"%char c then ascii_of_nat (nat_of_ascii c - 32) else c.

Fixpoint str_map (f : ascii -> ascii) (s : string) : string :=
  match s with
  | EmptyString => EmptyString
  | String c r => String (f c) (str_map f r)
  end.

(** [s.lower()] and [s.upper()]. *)
Definition str_lower : string -> string := str_map ascii_lower.
Definition str_upper : string -> string := str_map ascii_upper.

Fixpoint str_drop (k : nat) (s : string) : string :=
  match k, s with
  | O, _ => s
  | S _, EmptyString => EmptyString
  | S k', String _ r => str_drop k' r
  end.

(** [s[start:]], with Python's treatment of a negative or too large start. *)
Definition py_slice_from (start : Z) (s : string) : string :=
  let len := Z.of_nat (String.length s) in
  let st := if (start <? 0)%Z then Z.max 0 (start + len) else Z.min start len in
  str_drop (Z.to_nat st) s.

(** [s[-n:]] for a bound written as a literal in the source ([-20000],
    [-4000], [-2000]); [-0] is [0], so that [s[-0:]] is all of [s]. *)
Definition tail (n : N) (s : string) : string :=
  py_slice_from (- Z.of_N n) s.

Fixpoint str_rev_onto (s acc : string) : string :=
  match s with
  | EmptyString => acc
  | String c r => str_rev_onto r (String c acc)
  end.

Definition str_rev (s : string) : string := str_rev_onto s EmptyString.

(** The ASCII characters for which [str.isspace] holds. *)
Definition is_space (c : ascii) : bool :=
  let n := nat_of_ascii c in
  (((9 <=? n) && (n <=? 13)) || ((28 <=? n) && (n <=? 32)))%nat.

Fixpoint lstrip (s : string) : string :=
  match s with
  | EmptyString => EmptyString
  | String c r => if is_space c then lstrip r else s
  end.

(** [s.strip()]. *)
Definition strip (s : string) : string :=
  str_rev (lstrip (str_rev (lstrip s))).

Fixpoint starts_with (p s : string) : bool :=
  match p, s with
  | EmptyString, _ => true
  | String a p', String b s' => Ascii.eqb a b && starts_with p' s'
  | String _ _, EmptyString => false
  end.

(** [sub in s]. *)
Fixpoint str_contains (sub s : string) : bool :=
  starts_with sub s ||
  match s with
  | EmptyString => false
  | String _ r => str_contains sub r
  end.

Definition ends_with (p s : string) : bool :=
  starts_with (str_rev p) (str_rev s).

(** [s.split(sep)] for a one-character separator: the current piece is
    accumulated reversed in [cur]. *)
Fixpoint split_onto (sep : ascii) (s cur : string) : list string :=
  match s with
  | EmptyString => [str_rev cur]
  | String c r =>
      if Ascii.eqb c sep then str_rev cur :: split_onto sep r EmptyString
      else split_onto sep r (String c cur)
  end.

Definition split (sep : ascii) (s : string) : list string :=
  split_onto sep s EmptyString.

(** [" ".join(l)]. *)
Definition join (sep : string) (l : list string) : string := String.concat sep l.

Definition str_of_Z (z : Z) : string := NilZero.string_of_int (Z.to_int z).

(** ** Python values and exceptions *)

(** The values [json.loads] produces and the handlers pass around.  Of a
    float the handlers observe only its truth value and its [str()]. *)
Inductive value : Type :=
| VNone
| VBool (b : bool)
| VInt (z : Z)
| VFloat (nonzero : bool) (text : string)
| VStr (s : string)
| VList (l : list value)
| VDict (d : list (string * value)).

Inductive exn_class : Type :=
| AttributeError | TypeError | KeyError | ValueError | JSONDecodeError
| RuntimeError | TimeoutExpired | OSError | ClientError | BinasciiError
| UnicodeDecodeError | ReadError | BadZipFile.

(** An exception: its class and its [str(e)].  Every class above derives
    from [Exception]. *)
Record exn : Type := mkExn { exn_kind : exn_class; exn_str : string }.

Definition is_timeout (e : exn) : bool :=
  match exn_kind e with TimeoutExpired => true | _ => false end.

Inductive result (A : Type) : Type :=
| Ok (a : A)
| Raise (e : exn).
Arguments Ok {A} a.
Arguments Raise {A} e.

Definition rbind {A B} (r : result A) (k : A -> result B) : result B :=
  match r with
  | Ok a => k a
  | Raise e => Raise e
  end.

Declare Scope res_scope.
Delimit Scope res_scope with res.
Notation "x <- r ;; k" := (rbind r (fun x => k))
  (at level 61, r at next level, right associativity) : res_scope.

(** Truth value of a Python value ([bool(v)]). *)
Definition truthy (v : value) : bool :=
  match v with
  | VNone => false
  | VBool b => b
  | VInt z => negb (z =? 0)%Z
  | VFloat nz _ => nz
  | VStr s => negb (String.eqb s "")
  | VList l => match l with [] => false | _ => true end
  | VDict d => match d with [] => false | _ => true end
  end.

Fixpoint assoc {B} (k : string) (d : list (string * B)) : option B :=
  match d with
  | [] => None
  | (k', v) :: r => if String.eqb k k' then Some v else assoc k r
  end.

Definition has_key {B} (k : string) (d : list (string * B)) : bool :=
  match assoc k d with Some _ => true | None => false end.

Definition type_name (v : value) : string :=
  match v with
  | VNone => "NoneType" | VBool _ => "bool" | VInt _ => "int"
  | VFloat _ _ => "float" | VStr _ => "str" | VList _ => "list"
  | VDict _ => "dict"
  end.

Definition no_attribute (v : value) (attr : string) : exn :=
  mkExn AttributeError
    ("'" ++ type_name v ++ "' object has no attribute '" ++ attr ++ "'").

(** [obj.get(k, default)]. *)
Definition py_get_default (obj : value) (k : string) (default : value) : result value :=
  match obj with
  | VDict d => Ok (match assoc k d with Some v => v | None => default end)
  | _ => Raise (no_attribute obj "get")
  end.

(** [obj.get(k)]. *)
Definition py_get (obj : value) (k : string) : result value :=
  py_get_default obj k VNone.

(** [obj[k]] for a string key. *)
Definition py_index (obj : value) (k : string) : result value :=
  match obj with
  | VDict d =>
      match assoc k d with
      | Some v => Ok v
      | None => Raise (mkExn KeyError ("'" ++ k ++ "'"))
      end
  | _ => Raise (mkExn TypeError ("'" ++ type_name obj ++ "' object is not subscriptable"))
  end.

(** [v.lower()] and [v.upper()]: only a [str] has them. *)
Definition py_lower (v : value) : result string :=
  match v with
  | VStr s => Ok (str_lower s)
  | _ => Raise (no_attribute v "lower")
  end.

Definition py_upper (v : value) : result string :=
  match v with
  | VStr s => Ok (str_upper s)
  | _ => Raise (no_attribute v "upper")
  end.

(** [str(v)], as an f-string renders [v].  The [repr] of floats and
    containers is left to the platform. *)
Definition py_str (repr : value -> string) (v : value) : string :=
  match v with
  | VNone => "None"
  | VBool true => "True"
  | VBool false => "False"
  | VInt z => str_of_Z z
  | VFloat _ text => text
  | VStr s => s
  | VList _ | VDict _ => repr v
  end.

(** ** File system *)

(** A path is the list of its components from the root;
    [os.path.join(p, name)] is [p ++ [name]]. *)
Definition path := list string.

Fixpoint path_eqb (p q : path) : bool :=
  match p, q with
  | [], [] => true
  | a :: p', b :: q' => String.eqb a b && path_eqb p' q'
  | _, _ => false
  end.

(** [is_prefix p q]: [q] is [p] or lies below it. *)
Fixpoint is_prefix (p q : path) : bool :=
  match p, q with
  | [], _ => true
  | a :: p', b :: q' => String.eqb a b && is_prefix p' q'
  | _ :: _, [] => false
  end.

Inductive node : Type :=
| Dir
| File (data : string) (mode : Z).

Definition filesystem := list (path * node).

Fixpoint fs_lookup (p : path) (f : filesystem) : option node :=
  match f with
  | [] => None
  | (q, n) :: r => if path_eqb p q then Some n else fs_lookup p r
  end.

(** [os.path.exists], [os.path.isdir] and [os.path.isfile]. *)
Definition fs_exists (p : path) (f : filesystem) : bool :=
  match fs_lookup p f with Some _ => true | None => false end.

Definition fs_isdir (p : path) (f : filesystem) : bool :=
  match fs_lookup p f with Some Dir => true | _ => false end.

Definition fs_isfile (p : path) (f : filesystem) : bool :=
  match fs_lookup p f with Some (File _ _) => true | _ => false end.

Definition fs_put (p : path) (n : node) (f : filesystem) : filesystem :=
  (p, n) :: filter (fun e => negb (path_eqb p (fst e))) f.

(** What is left when the tree rooted at [p] is removed. *)
Definition fs_remove_tree (p : path) (f : filesystem) : filesystem :=
  filter (fun e => negb (is_prefix p (fst e))) f.

(** [os.path.join(p, c)] for one relative component, and for several. *)
Definition path_join (p : path) (c : string) : path := (p ++ [c])%list.
Definition path_app (p q : path) : path := (p ++ q)%list.

(** All the proper and improper prefixes of [p], shortest first, the root
    left out. *)
Fixpoint prefixes_from (base p : path) : list path :=
  match p with
  | [] => []
  | c :: r => path_join base c :: prefixes_from (path_join base c) r
  end.

Definition dirname (p : path) : path := removelast p.

Definition default_file_mode : Z := 420.   (* 0o644 *)
Definition owner_only_mode : Z := 384.     (* 0o600 *)

(** ** State, platform and the monad *)

(** What a run changes: the file system, the working directory, the
    identifiers under which the secret store was queried (most recent
    first), the workspaces [tempfile.mkdtemp] created, and, for
    [deployment_lambda], the handler's [deployer] variable: [None] while it
    is [None], [Some wd] for an object whose [work_dir] attribute is [wd]. *)
Record state : Type := mkState {
  fs : filesystem;
  cwd : path;
  secret_calls : list string;
  workspaces : list path;
  deployer : option (option path)
}.

Definition set_fs (f : filesystem) (st : state) : state :=
  mkState f (cwd st) (secret_calls st) (workspaces st) (deployer st).
Definition set_cwd (c : path) (st : state) : state :=
  mkState (fs st) c (secret_calls st) (workspaces st) (deployer st).
Definition log_secret_call (id : string) (st : state) : state :=
  mkState (fs st) (cwd st) (id :: secret_calls st) (workspaces st) (deployer st).
Definition log_workspace (p : path) (st : state) : state :=
  mkState (fs st) (cwd st) (secret_calls st) (p :: workspaces st) (deployer st).
Definition set_deployer (d : option (option path)) (st : state) : state :=
  mkState (fs st) (cwd st) (secret_calls st) (workspaces st) d.

(** The state a run starts from: nothing queried, no workspace, no deployer. *)
Definition init_state (f : filesystem) (c : path) : state :=
  mkState f c [] [] None.

(** The answer of Secrets Manager's [get_secret_value]. *)
Record secret_value : Type := mkSecret {
  SecretString : option string;
  SecretBinary : option string
}.

Record zip_entry : Type := mkEntry { zip_name : string; zip_data : string }.

(** What [subprocess.run] returns. *)
Record completed_process : Type := mkCompleted {
  cp_returncode : Z;
  cp_stdout : string;
  cp_stderr : string
}.

(** The operations on files that can fail for reasons of the operating
    system.  Removing a tree the run created is taken to succeed. *)
Inductive io_op : Type :=
| OpWrite | OpChmod | OpCopytree | OpMakedirs | OpChdir | OpGetcwd | OpClient.

(** Everything outside the handlers. *)
Record platform : Type := mkPlatform {
  json_parse : string -> option value;          (* json.loads on text; None: JSONDecodeError *)
  py_repr : value -> string;                    (* repr of floats, lists, dicts *)
  utf8_decode : string -> option string;        (* bytes.decode(); None: UnicodeDecodeError *)
  os_environ : list (string * string);
  base_dir : path;                              (* os.path.dirname(__file__) *)
  home_dir : path;                              (* os.path.expanduser('~') *)
  secretsmanager : string -> result secret_value;
  ssm : string -> bool -> result string;
  s3_object : value -> value -> result string;
  zip_read : string -> option (list zip_entry); (* None: not a zip file *)
  tempfile_mkdtemp : string -> result path;
  subprocess_run :
    list string -> path -> list (string * string) -> result completed_process;
  fault : io_op -> path -> option exn
}.

Definition M (A : Type) : Type := state -> result A * state.

Definition ret {A} (a : A) : M A := fun st => (Ok a, st).
Definition raise {A} (e : exn) : M A := fun st => (Raise e, st).
Definition lift {A} (r : result A) : M A := fun st => (r, st).

Definition bind {A B} (m : M A) (k : A -> M B) : M B :=
  fun st =>
    match m st with
    | (Ok a, st') => k a st'
    | (Raise e, st') => (Raise e, st')
    end.

(** [try: m except Exception as e: h e]. *)
Definition try_except {A} (m : M A) (h : exn -> M A) : M A :=
  fun st =>
    match m st with
    | (Ok a, st') => (Ok a, st')
    | (Raise e, st') => h e st'
    end.

(** [try: m finally: c]: [c] runs on every way out of [m]; an exception of
    [c] replaces the outcome of [m]. *)
Definition try_finally {A} (m : M A) (c : M unit) : M A :=
  fun st =>
    match m st with
    | (r, st') =>
        match c st' with
        | (Ok _, st'') => (r, st'')
        | (Raise e, st'') => (Raise e, st'')
        end
    end.

Definition get_state : M state := fun st => (Ok st, st).
Definition modify (f : state -> state) : M unit := fun st => (Ok tt, f st).

Declare Scope m_scope.
Delimit Scope m_scope with m.
Notation "x <- m ;; k" := (bind m (fun x => k))
  (at level 61, m at next level, right associativity) : m_scope.
Notation "m ;; k" := (bind m (fun _ => k))
  (at level 61, right associativity) : m_scope.
Open Scope m_scope.

(** ** Library operations *)

Definition nl : string := String (ascii_of_nat 10) EmptyString.

(** The path as the text the command line and the messages show. *)
Definition path_str (p : path) : string := "/" ++ join "/" p.

Definition os_error (msg : string) (p : path) : exn :=
  mkExn OSError (msg ++ ": '" ++ path_str p ++ "'").

(** [os.makedirs] over the prefixes [qs] of a path: a missing one is
    created, a directory is kept, a file in the way is an error. *)
Fixpoint fs_makedirs (qs : list path) (f : filesystem) : result filesystem :=
  match qs with
  | [] => Ok f
  | q :: r =>
      match fs_lookup q f with
      | None => fs_makedirs r (fs_put q Dir f)
      | Some Dir => fs_makedirs r f
      | Some (File _ _) => Raise (os_error "File exists" q)
      end
  end.

(** The entries [shutil.copytree(src, dst)] creates. *)
Definition copied_entries (src dst : path) (f : filesystem) : filesystem :=
  (dst, Dir) ::
  map (fun e => (path_app dst (skipn (List.length src) (fst e)), snd e))
      (filter (fun e => is_prefix src (fst e) && negb (path_eqb src (fst e))) f).

(** The position of a character in the base64 alphabet. *)
Definition b64_index (c : ascii) : option N :=
  let n := N_of_ascii c in
  if ascii_between "A"%char "Z"%char c then Some (n - 65)%N
  else if ascii_between "a"%char "z"%char c then Some (n - 97 + 26)%N
  else if ascii_between "0"%char "9"%char c then Some (n - 48 + 52)%N
  else if Ascii.eqb c "+"%char then Some 62%N
  else if Ascii.eqb c "/"%char then Some 63%N
  else None.

(** [binascii.a2b_base64] as [base64.b64decode] calls it (not strict): a
    character outside the alphabet is skipped, padding that completes a
    quad ends the input, and what is left of an unfinished quad is an
    error.  [out] is the output so far, reversed. *)
Fixpoint a2b_base64 (s : string) (quad_pos : nat) (leftchar : N) (pads : nat)
    (out : string) : result string :=
  match s with
  | EmptyString =>
      match quad_pos with
      | O => Ok (str_rev out)
      | 1%nat => Raise (mkExn BinasciiError
                   "Invalid base64-encoded string: number of data characters cannot be 1 more than a multiple of 4")
      | _ => Raise (mkExn BinasciiError "Incorrect padding")
      end
  | String c r =>
      if Ascii.eqb c "="%char then
        if (2 <=? quad_pos)%nat then
          if (4 <=? quad_pos + S pads)%nat then Ok (str_rev out)
          else a2b_base64 r quad_pos leftchar (S pads) out
        else a2b_base64 r quad_pos leftchar pads out
      else
        match b64_index c with
        | None => a2b_base64 r quad_pos leftchar pads out
        | Some this_ch =>
            match quad_pos with
            | O => a2b_base64 r 1 this_ch 0 out
            | 1%nat =>
                a2b_base64 r 2 (N.land this_ch 15) 0
                  (String (ascii_of_N (N.lor (N.shiftl leftchar 2) (N.shiftr this_ch 4))) out)
            | 2%nat =>
                a2b_base64 r 3 (N.land this_ch 3) 0
                  (String (ascii_of_N (N.lor (N.shiftl leftchar 4) (N.shiftr this_ch 2))) out)
            | _ =>
                a2b_base64 r 0 0%N 0
                  (String (ascii_of_N (N.lor (N.shiftl leftchar 6) this_ch)) out)
            end
        end
  end.

Fixpoint all_ascii (s : string) : bool :=
  match s with
  | EmptyString => true
  | String c r => (nat_of_ascii c <? 128)%nat && all_ascii r
  end.

(** [base64.b64decode(b)] for bytes [b]. *)
Definition b64decode_bytes (b : string) : result string :=
  a2b_base64 b 0 0%N 0 EmptyString.

(** [base64.b64decode(s)] for a [str] [s], which is first encoded as ASCII. *)
Definition b64decode_str (s : string) : result string :=
  if all_ascii s then b64decode_bytes s
  else Raise (mkExn ValueError "string argument should contain only ASCII characters").

(** The components [os.path.join(dir, *name.split('/'))] keeps of an entry
    name, and those [zipfile] keeps: the ones named in [dropped] go. *)
Definition entry_components (dropped : list string) (name : string) : list string :=
  filter (fun c => negb (existsb (String.eqb c) dropped)) (split "/"%char name).

Fixpoint for_each {A} (f : A -> M unit) (l : list A) : M unit :=
  match l with
  | [] => ret tt
  | x :: r => f x ;; for_each f r
  end.

Section Primitives.
Variable E : platform.

Definition check_fault (op : io_op) (p : path) : M unit :=
  match fault E op p with
  | Some e => raise e
  | None => ret tt
  end.

(** [json.loads(v)]. *)
Definition json_loads (v : value) : result value :=
  match v with
  | VStr s =>
      match json_parse E s with
      | Some j => Ok j
      | None => Raise (mkExn JSONDecodeError "Expecting value")
      end
  | _ => Raise (mkExn TypeError
           ("the JSON object must be str, bytes or bytearray, not " ++ type_name v))
  end.

(** [b.decode()]. *)
Definition bytes_decode (b : string) : result string :=
  match utf8_decode E b with
  | Some s => Ok s
  | None => Raise (mkExn UnicodeDecodeError "'utf-8' codec can't decode bytes")
  end.

(** [os.getenv(k)] as a Python value, and [os.getenv(k, default)]. *)
Definition getenv (k : string) : value :=
  match assoc k (os_environ E) with
  | Some v => VStr v
  | None => VNone
  end.

Definition getenv_default (k default : string) : value :=
  match assoc k (os_environ E) with
  | Some v => VStr v
  | None => VStr default
  end.

(** [with open(p, "w") as f: f.write(data)], and the same in binary mode. *)
Definition write_text (p : path) (data : string) : M unit :=
  check_fault OpWrite p ;;
  st <- get_state ;;
  if negb (fs_isdir (dirname p) (fs st)) then
    raise (os_error "No such file or directory" p)
  else
    match fs_lookup p (fs st) with
    | Some Dir => raise (os_error "Is a directory" p)
    | Some (File _ m) => modify (set_fs (fs_put p (File data m) (fs st)))
    | None => modify (set_fs (fs_put p (File data default_file_mode) (fs st)))
    end.

(** [os.chmod(p, mode)]. *)
Definition chmod (p : path) (mode : Z) : M unit :=
  check_fault OpChmod p ;;
  st <- get_state ;;
  match fs_lookup p (fs st) with
  | Some (File d _) => modify (set_fs (fs_put p (File d mode) (fs st)))
  | Some Dir => ret tt
  | None => raise (os_error "No such file or directory" p)
  end.

(** [tempfile.mkdtemp(prefix=...)]: the platform picks the name. *)
Definition mkdtemp (prefix : string) : M path :=
  match tempfile_mkdtemp E prefix with
  | Raise e => raise e
  | Ok p =>
      modify (fun st => log_workspace p (set_fs (fs_put p Dir (fs st)) st)) ;;
      ret p
  end.

(** [shutil.rmtree(p, ignore_errors=...)]. *)
Definition rmtree (p : path) (ignore_errors : bool) : M unit :=
  st <- get_state ;;
  if ignore_errors || fs_exists p (fs st) then
    modify (set_fs (fs_remove_tree p (fs st)))
  else raise (os_error "No such file or directory" p).

(** [shutil.copytree(src, dst)]. *)
Definition copytree (src dst : path) : M unit :=
  check_fault OpCopytree dst ;;
  st <- get_state ;;
  if negb (fs_isdir src (fs st)) then raise (os_error "Not a directory" src)
  else if fs_exists dst (fs st) then raise (os_error "File exists" dst)
  else modify (set_fs (copied_entries src dst (fs st) ++ fs st)%list).

(** [os.makedirs(p, exist_ok=True)]. *)
Definition makedirs (p : path) : M unit :=
  check_fault OpMakedirs p ;;
  st <- get_state ;;
  match fs_makedirs (prefixes_from [] p) (fs st) with
  | Ok f => modify (set_fs f)
  | Raise e => raise e
  end.

(** [os.mkdir(p)]. *)
Definition mkdir (p : path) : M unit :=
  check_fault OpMakedirs p ;;
  st <- get_state ;;
  if fs_exists p (fs st) then raise (os_error "File exists" p)
  else if negb (fs_isdir (dirname p) (fs st)) then
    raise (os_error "No such file or directory" p)
  else modify (set_fs (fs_put p Dir (fs st))).

(** [os.getcwd()] and [os.chdir(p)]. *)
Definition getcwd : M path :=
  check_fault OpGetcwd [] ;;
  st <- get_state ;;
  ret (cwd st).

Definition chdir (p : path) : M unit :=
  check_fault OpChdir p ;;
  st <- get_state ;;
  if fs_isdir p (fs st) then modify (set_cwd p)
  else raise (os_error "No such file or directory" p).

(** One entry of [shutil.unpack_archive] on a zip file: an absolute name
    or one with [..] in it is passed over. *)
Definition unpack_entry (extract_dir : path) (e : zip_entry) : M unit :=
  let name := zip_name e in
  if starts_with "/" name || str_contains ".." name then ret tt
  else
    let targetpath := path_app extract_dir (entry_components [""] name) in
    let trailing := ends_with "/" name || String.eqb name "" in
    st <- get_state ;;
    let updir := if trailing then targetpath else dirname targetpath in
    (if fs_isdir updir (fs st) then ret tt else makedirs updir) ;;
    if ends_with "/" name then ret tt
    else write_text targetpath (zip_data e).

(** [shutil.unpack_archive(file, extract_dir)] for a [.zip] name. *)
Definition unpack_archive (file extract_dir : path) : M unit :=
  st <- get_state ;;
  match fs_lookup file (fs st) with
  | Some (File data _) =>
      match zip_read E data with
      | None => raise (mkExn ReadError (path_str file ++ " is not a zip file"))
      | Some entries => for_each (unpack_entry extract_dir) entries
      end
  | _ => raise (mkExn ReadError (path_str file ++ " is not a zip file"))
  end.

(** One entry of [ZipFile.extractall]: empty, [.] and [..] components
    are removed from the name before it is joined to the target. *)
Definition extract_member (targetdir : path) (e : zip_entry) : M unit :=
  let name := zip_name e in
  let arcname := entry_components [""; "."; ".."] name in
  let is_dir := ends_with "/" name in
  match arcname, is_dir with
  | [], false => raise (mkExn ValueError "Empty filename.")
  | _, _ =>
      let targetpath := path_app targetdir arcname in
      let upperdirs := dirname targetpath in
      st <- get_state ;;
      (if negb (fs_exists upperdirs (fs st)) then makedirs upperdirs else ret tt) ;;
      if is_dir then
        st' <- get_state ;;
        if fs_isdir targetpath (fs st') then ret tt else mkdir targetpath
      else write_text targetpath (zip_data e)
  end.

(** [with zipfile.ZipFile(file, 'r') as z: z.extractall(targetdir)]. *)
Definition extractall (file targetdir : path) : M unit :=
  st <- get_state ;;
  match fs_lookup file (fs st) with
  | Some (File data _) =>
      match zip_read E data with
      | None => raise (mkExn BadZipFile "File is not a zip file")
      | Some entries => for_each (extract_member targetdir) entries
      end
  | _ => raise (os_error "No such file or directory" file)
  end.

(** The secret store: each query is recorded under its identifier. *)
Definition get_secret_value (secret_id : string) : M secret_value :=
  modify (log_secret_call secret_id) ;;
  lift (secretsmanager E secret_id).

Definition ssm_get_parameter (name : string) (decrypt : bool) : M string :=
  modify (log_secret_call name) ;;
  lift (ssm E name decrypt).

End Primitives.

(** ** Results and responses *)

(** The dictionary an executor returns. *)
Record exec_result : Type := mkResult {
  returncode : Z;
  stdout : string;
  stderr : string;
  success : bool
}.

(** The handler's answer: the status and the dictionary given to
    [json.dumps] for the body. *)
Record response : Type := mkResponse {
  statusCode : Z;
  body : list (string * value)
}.

Definition ssh_common_args : string :=
  "-o StrictHostKeyChecking=no -o UserKnownHostsFile=/dev/null -o IdentitiesOnly=yes".

(** ** ansible_lambda.py *)

Module AnsibleLambda.

(** What [lambda_handler] reads from its event before it validates. *)
Record request : Type := mkRequest {
  req_service_name : value;
  req_jar_timestamp : value;
  req_site : string;
  req_app_user : value
}.

Section WithPlatform.
Variable E : platform.

Definition _copy_embedded_ansible (work_dir : path) : M path :=
  let embedded_dir := path_join (base_dir E) "ansible" in
  let bundle := path_join (base_dir E) "ansible_bundle.zip" in
  let target := path_join work_dir "ansible" in
  st <- get_state ;;
  if fs_isdir embedded_dir (fs st) then
    copytree E embedded_dir target ;;
    ret target
  else if fs_isfile bundle (fs st) then
    unpack_archive E bundle work_dir ;;
    st' <- get_state ;;
    if negb (fs_isdir target (fs st')) then
      raise (mkExn RuntimeError "ansible directory missing after unzip")
    else ret target
  else
    raise (mkExn RuntimeError "No embedded ansible (directory or zip) found in package").

(** [base64.b64decode(resp['SecretBinary']).decode()]. *)
Definition decode_secret_binary (resp : secret_value) : result string :=
  match SecretBinary resp with
  | None => Raise (mkExn KeyError "'SecretBinary'")
  | Some b => (raw <- b64decode_bytes b ;; bytes_decode E raw)%res
  end.

Definition _get_json_secret (secret_id : string) : M value :=
  resp <- get_secret_value E secret_id ;;
  match SecretString resp with
  | Some s => lift (json_loads E (VStr s))
  | None => lift (txt <- decode_secret_binary resp ;; json_loads E (VStr txt))%res
  end.

(** [key_secret.get('SecretString') or base64.b64decode(...).decode()]:
    the text when there is one and it is not empty. *)
Definition key_material_of (key_secret : secret_value) : result string :=
  match SecretString key_secret with
  | Some s => if negb (String.eqb s "") then Ok s else decode_secret_binary key_secret
  | None => decode_secret_binary key_secret
  end.

Definition _write_ssh_key (work_dir : path) (secret_id : string) : M path :=
  key_secret <- get_secret_value E secret_id ;;
  key_material <- lift (key_material_of key_secret) ;;
  let key_path := path_join work_dir "id_rsa" in
  write_text E key_path (strip key_material ++ nl) ;;
  chmod E key_path owner_only_mode ;;
  ret key_path.

Definition inventory_content (host user : value) (site : string) : string :=
  "[vm]" ++ nl ++
  py_str (py_repr E) host ++ " ansible_user=" ++ py_str (py_repr E) user ++
  " ansible_connection=ssh ansible_python_interpreter=/usr/libexec/platform-python" ++ nl ++
  nl ++
  "[vm:vars]" ++ nl ++
  "site=" ++ site ++ nl ++
  "ansible_ssh_common_args=" ++ ssh_common_args ++ nl.

Definition _create_inventory (ansible_dir : path) (host user : value) (site : string)
    : M path :=
  let hosts_path := path_join ansible_dir "hosts" in
  write_text E hosts_path (inventory_content host user site) ;;
  ret hosts_path.

(** The loop over [extra.items()]: an entry whose value is [None] is
    passed over. *)
Fixpoint extra_args (extra : list (string * value)) : list string :=
  match extra with
  | [] => []
  | (k, v) :: r =>
      match v with
      | VNone => extra_args r
      | _ => "-e" :: (k ++ "=" ++ py_str (py_repr E) v) :: extra_args r
      end
  end.

Definition playbook_cmd (ansible_dir : path) (extra : list (string * value))
    : list string :=
  (["ansible-playbook";
    "-i"; path_str (path_join ansible_dir "hosts");
    "main.yml";
    "--ssh-common-args"; ssh_common_args;
    "-vv"] ++ extra_args extra)%list.

Definition playbook_env : list (string * string) :=
  let env := ("ANSIBLE_HOST_KEY_CHECKING", "False") :: os_environ E in
  ("ANSIBLE_STDOUT_CALLBACK",
   match assoc "ANSIBLE_STDOUT_CALLBACK" env with Some v => v | None => "yaml" end)
  :: env.

Definition _run_playbook (ansible_dir : path) (extra : list (string * value))
    (ssh_key_path : path) : M exec_result :=
  let cmd := playbook_cmd ansible_dir extra in
  result <- lift (subprocess_run E cmd ansible_dir playbook_env) ;;
  ret (mkResult (cp_returncode result)
                (tail 20000 (cp_stdout result))
                (tail 20000 (cp_stderr result))
                (cp_returncode result =? 0)%Z).

(** Line 88 of [lambda_handler]: the body is parsed from the event's
    [body] entry when the event is a dictionary that has one, and is the
    event itself otherwise. *)
Definition event_body (event : value) : result value :=
  match event with
  | VDict d =>
      match assoc "body" d with
      | Some b => json_loads E b
      | None => Ok event
      end
  | _ => Ok event
  end.

(** Lines 88 to 92: the fields read from the body. *)
Definition read_request (event : value) : result request :=
  (body <- event_body event ;;
   service_name <- py_get body "service_name" ;;
   jar_timestamp <- py_get body "jar_timestamp" ;;
   site_v <- py_get_default body "site" (VStr "sit1") ;;
   site <- py_lower site_v ;;
   app_user <- py_get_default body "app_user" (VStr "appadm") ;;
   Ok (mkRequest service_name jar_timestamp site app_user))%res.

Definition extra_vars (req : request) (datasource_url db_username db_password : value)
    : list (string * value) :=
  [("service_name", req_service_name req);
   ("jar_timestamp", req_jar_timestamp req);
   ("aws_s3_bucket_repository", getenv E "AWS_S3_BUCKET_REPOSITORY");
   ("aws_access_key_id", getenv_default E "AWS_ACCESS_KEY_ID" "");
   ("aws_secret_access_key", getenv_default E "AWS_SECRET_ACCESS_KEY" "");
   ("aws_default_region", getenv_default E "AWS_DEFAULT_REGION" "us-east-1");
   ("site", VStr (req_site req));
   ("app_user", req_app_user req);
   ("datasource_url", datasource_url);
   ("db_username", db_username);
   ("db_password", db_password)].

Definition lambda_handler (event : value) : M response :=
  try_except
    (req <- lift (read_request event) ;;
     if negb (truthy (req_service_name req)) || negb (truthy (req_jar_timestamp req)) then
       ret (mkResponse 400 [("error", VStr "service_name and jar_timestamp required")])
     else
       let site := req_site req in
       let vm_secret_id := "demoapp/vm/" ++ site in
       let ssh_key_secret_id := "demoapp/vm/ssh-key" in
       vm_data <- _get_json_secret vm_secret_id ;;
       vm_host <- lift (py_index vm_data "VM_HOSTNAME") ;;
       vm_user <- lift (py_index vm_data "VM_USERNAME") ;;
       datasource_url <- lift (py_get_default vm_data "DATASOURCE_URL" (VStr "")) ;;
       db_username <- lift (py_get_default vm_data "DB_USERNAME" (VStr "")) ;;
       db_password <- lift (py_get_default vm_data "DB_PASSWORD" (VStr "")) ;;
       work_dir <- mkdtemp E "ansible_exec_" ;;
       try_finally
         (ansible_dir <- _copy_embedded_ansible work_dir ;;
          ssh_key_path <- _write_ssh_key work_dir ssh_key_secret_id ;;
          _create_inventory ansible_dir vm_host vm_user site ;;
          result <- _run_playbook ansible_dir
                      (extra_vars req datasource_url db_username db_password)
                      ssh_key_path ;;
          if success result then
            ret (mkResponse 200
                   [("message", VStr "Deployment succeeded");
                    ("service_name", req_service_name req);
                    ("timestamp", req_jar_timestamp req);
                    ("site", VStr site);
                    ("target_vm", vm_host);
                    ("ansible_stdout_tail", VStr (tail 2000 (stdout result)))])
          else
            ret (mkResponse 500
                   [("error", VStr "Deployment failed");
                    ("stderr_tail", VStr (tail 4000 (stderr result)));
                    ("stdout_tail", VStr (tail 4000 (stdout result)))]))
         (rmtree work_dir true))
    (fun e => ret (mkResponse 500 [("error", VStr (exn_str e))])).

End WithPlatform.
End AnsibleLambda.

(** ** deployment_lambda.py *)

Module DeploymentLambda.

(** What [lambda_handler] reads from its event before it validates. *)
Record request : Type := mkRequest {
  req_service_name : value;
  req_jar_timestamp : value;
  req_site : string;
  req_app_user : value;
  req_ansible_s3_bucket : value;
  req_ansible_s3_key : value;
  req_artifacts_s3_bucket : value
}.

(** The dictionary [get_inventory_mapping] returns. *)
Record inventory : Type := mkInventory {
  hostname : string;
  username : string;
  ssh_key : string;
  datasource_url : string;
  db_username : string;
  db_password : string
}.

Section WithPlatform.
Variable E : platform.

(** [AnsibleDeploymentLambda()]: the clients are made, [work_dir] is
    [None]; the handler's [deployer] holds the object from then on. *)
Definition new_deployer : M unit :=
  check_fault E OpClient [] ;;
  modify (set_deployer (Some None)).

(** [self.work_dir]. *)
Definition self_work_dir : M (option path) :=
  st <- get_state ;;
  match deployer st with
  | Some wd => ret wd
  | None => raise (mkExn AttributeError "'NoneType' object has no attribute 'work_dir'")
  end.

(** The [except] clause logs and raises the exception again. *)
Definition get_secret_parameter (parameter_name : string) (decrypt : bool) : M string :=
  try_except (ssm_get_parameter E parameter_name decrypt) (fun e => raise e).

Definition setup_work_directory : M path :=
  wd <- mkdtemp E "ansible_deploy_" ;;
  modify (set_deployer (Some (Some wd))) ;;
  ret wd.

Definition download_ansible_package (ansible_s3_bucket ansible_s3_key : value) : M path :=
  try_except
    (wd <- self_work_dir ;;
     match wd with
     | None => raise (mkExn TypeError
                 "expected str, bytes or os.PathLike object, not NoneType")
     | Some work_dir =>
         let package_path := path_join work_dir "ansible-package.zip" in
         data <- lift (s3_object E ansible_s3_bucket ansible_s3_key) ;;
         write_text E package_path data ;;
         let ansible_dir := path_join work_dir "ansible" in
         extractall E package_path ansible_dir ;;
         ret ansible_dir
     end)
    (fun e => raise e).

Definition inventory_content (vm_hostname vm_username site : string) : string :=
  "[vm]" ++ nl ++
  vm_hostname ++ " ansible_user=" ++ vm_username ++
  " ansible_connection=ssh ansible_python_interpreter=/usr/libexec/platform-python" ++ nl ++
  nl ++
  "[vm:vars]" ++ nl ++
  "ansible_ssh_common_args='" ++ ssh_common_args ++ "'" ++ nl ++
  "site=" ++ site ++ nl.

Definition create_inventory_file (ansible_dir : path) (vm_hostname vm_username site : string)
    : M path :=
  let inventory_path := path_join ansible_dir "hosts" in
  write_text E inventory_path (inventory_content vm_hostname vm_username site) ;;
  ret inventory_path.

(** The text [setup_ssh_key] writes: the content decoded from base64 and
    UTF-8 when both succeed, the content itself when either raises. *)
Definition decoded_or_same (ssh_key_content : string) : string :=
  match (raw <- b64decode_str ssh_key_content ;; bytes_decode E raw)%res with
  | Ok decoded_key => decoded_key
  | Raise _ => ssh_key_content
  end.

Definition setup_ssh_key (ssh_key_content : string) : M path :=
  let ssh_dir := path_join (home_dir E) ".ssh" in
  makedirs E ssh_dir ;;
  let key_path := path_join ssh_dir "id_rsa" in
  write_text E key_path (decoded_or_same ssh_key_content) ;;
  chmod E key_path owner_only_mode ;;
  ret key_path.

(** The loop over [extra_vars.items()]: every entry gives a pair. *)
Fixpoint extra_vars_list (extra_vars : list (string * value)) : list string :=
  match extra_vars with
  | [] => []
  | (key, v) :: r => "-e" :: (key ++ "=" ++ py_str (py_repr E) v) :: extra_vars_list r
  end.

Definition playbook_cmd (inventory_path : path) (extra_vars : list (string * value))
    : list string :=
  (["ansible-playbook";
    "-i"; path_str inventory_path;
    "main.yml";
    "--ssh-common-args"; ssh_common_args;
    "-vvv"] ++ extra_vars_list extra_vars)%list.

Definition playbook_env : list (string * string) :=
  ("ANSIBLE_GATHERING", "explicit") ::
  ("ANSIBLE_STDOUT_CALLBACK", "yaml") ::
  ("ANSIBLE_HOST_KEY_CHECKING", "False") :: os_environ E.

Definition execute_ansible_playbook (ansible_dir inventory_path : path)
    (extra_vars : list (string * value)) : M exec_result :=
  try_except
    (original_cwd <- getcwd E ;;
     chdir E ansible_dir ;;
     let cmd := playbook_cmd inventory_path extra_vars in
     st <- get_state ;;
     result <- lift (subprocess_run E cmd (cwd st) playbook_env) ;;
     chdir E original_cwd ;;
     ret (mkResult (cp_returncode result) (cp_stdout result) (cp_stderr result)
                   (cp_returncode result =? 0)%Z))
    (fun e =>
       if is_timeout e then
         ret (mkResult (-1) "" "Execution timed out after 15 minutes" false)
       else
         ret (mkResult (-1) "" (exn_str e) false)).

Definition get_inventory_mapping (site : string) : M inventory :=
  try_except
    (hostname <- get_secret_parameter ("/demoapp/vm/" ++ str_lower site ++ "/hostname") false ;;
     username <- get_secret_parameter ("/demoapp/vm/" ++ str_lower site ++ "/username") false ;;
     ssh_key <- get_secret_parameter "/demoapp/vm/ssh-key" true ;;
     datasource_url <-
       get_secret_parameter ("/demoapp/vm/" ++ str_lower site ++ "/datasource_url") true ;;
     db_username <-
       get_secret_parameter ("/demoapp/vm/" ++ str_lower site ++ "/db_username") true ;;
     db_password <-
       get_secret_parameter ("/demoapp/vm/" ++ str_lower site ++ "/db_password") true ;;
     ret (mkInventory hostname username ssh_key datasource_url db_username db_password))
    (fun e => raise (mkExn ValueError ("No inventory mapping found for site: " ++ site))).

Definition cleanup : M unit :=
  st <- get_state ;;
  match deployer st with
  | Some (Some work_dir) =>
      if fs_exists work_dir (fs st) then rmtree work_dir false else ret tt
  | _ => ret tt
  end.

(** Line 206 of [lambda_handler]: the body is parsed from the event's
    [body] entry when that is a string, and is the event itself
    otherwise; [event.get] needs a dictionary. *)
Definition event_body (event : value) : result value :=
  match event with
  | VDict d =>
      match assoc "body" d with
      | Some (VStr b) => json_loads E (VStr b)
      | _ => Ok event
      end
  | _ => Raise (no_attribute event "get")
  end.

(** Lines 206 to 214: the fields read from the body. *)
Definition read_request (event : value) : result request :=
  (body <- event_body event ;;
   service_name <- py_get body "service_name" ;;
   jar_timestamp <- py_get body "jar_timestamp" ;;
   site_v <- py_get_default body "site" (VStr "sit1") ;;
   site <- py_upper site_v ;;
   app_user <- py_get_default body "app_user" (VStr "appuser") ;;
   ansible_s3_bucket <-
     py_get_default body "ansible_s3_bucket" (getenv E "ANSIBLE_S3_BUCKET") ;;
   ansible_s3_key <-
     py_get_default body "ansible_s3_key" (VStr "ansible/ansible-playbooks.zip") ;;
   artifacts_s3_bucket <-
     py_get_default body "artifacts_s3_bucket" (getenv E "AWS_S3_BUCKET_REPOSITORY") ;;
   Ok (mkRequest service_name jar_timestamp site app_user
                 ansible_s3_bucket ansible_s3_key artifacts_s3_bucket))%res.

Definition extra_vars (req : request) (inv : inventory) : list (string * value) :=
  [("service_name", req_service_name req);
   ("jar_timestamp", req_jar_timestamp req);
   ("aws_s3_bucket_repository", req_artifacts_s3_bucket req);
   ("aws_access_key_id", getenv E "AWS_ACCESS_KEY_ID");
   ("aws_secret_access_key", getenv E "AWS_SECRET_ACCESS_KEY");
   ("aws_default_region", getenv E "AWS_DEFAULT_REGION");
   ("site", VStr (req_site req));
   ("app_user", req_app_user req);
   ("datasource_url", VStr (datasource_url inv));
   ("db_username", VStr (db_username inv));
   ("db_password", VStr (db_password inv))].

Definition lambda_handler (event : value) : M response :=
  modify (set_deployer None) ;;
  try_finally
    (try_except
       (req <- lift (read_request event) ;;
        if negb (forallb truthy [req_service_name req; req_jar_timestamp req;
                                 req_artifacts_s3_bucket req; req_ansible_s3_bucket req]) then
          ret (mkResponse 400
                 [("error", VStr "Missing required parameters: service_name, jar_timestamp, artifacts_s3_bucket, ansible_s3_bucket")])
        else
          let site := req_site req in
          new_deployer ;;
          setup_work_directory ;;
          inv <- get_inventory_mapping site ;;
          ssh_key_path <- setup_ssh_key (ssh_key inv) ;;
          ansible_dir <- download_ansible_package (req_ansible_s3_bucket req)
                           (req_ansible_s3_key req) ;;
          inventory_path <- create_inventory_file ansible_dir (hostname inv)
                              (username inv) site ;;
          result <- execute_ansible_playbook ansible_dir inventory_path
                      (extra_vars req inv) ;;
          if success result then
            ret (mkResponse 200
                   [("message", VStr "Deployment completed successfully");
                    ("service_name", req_service_name req);
                    ("timestamp", req_jar_timestamp req);
                    ("site", VStr site);
                    ("target_vm", VStr (hostname inv));
                    ("ansible_output", VStr (tail 2000 (stdout result)))])
          else
            ret (mkResponse 500
                   [("error", VStr "Deployment failed");
                    ("ansible_stderr", VStr (tail 2000 (stderr result)));
                    ("ansible_stdout", VStr (tail 2000 (stdout result)))]))
       (fun e =>
          ret (mkResponse 500
                 [("error", VStr (exn_str e));
                  ("message", VStr "Lambda deployment failed")])))
    (st <- get_state ;;
     match deployer st with
     | Some _ => cleanup
     | None => ret tt
     end).

End WithPlatform.
End DeploymentLambda.

(** ** package_ansible.py *)

Module PackageAnsible.

(** A directory as [os.walk] sees it: files with their content, and
    directories with their entries in listing order. *)
Inductive tree : Type :=
| TFile (data : string)
| TDir (children : list (string * tree)).

Definition pruned_dirs : list string := [".git"; "__pycache__"; ".pytest_cache"].
Definition skipped_suffixes : list string := [".pyc"; ".pyo"; ".DS_Store"].

(** [d not in ['.git', '__pycache__', '.pytest_cache']]. *)
Definition kept_dir (d : string) : bool :=
  negb (existsb (String.eqb d) pruned_dirs).

(** [file.endswith(('.pyc', '.pyo', '.DS_Store'))]. *)
Definition skipped_file (file : string) : bool :=
  existsb (fun suffix => ends_with suffix file) skipped_suffixes.

(** [os.path.relpath(p, start)] for a [start] that is above [p]. *)
Definition relpath (p start : path) : path := skipn (List.length start) p.

(** The loop over [files] for one directory: each file that is not
    skipped, with its path. *)
Fixpoint files_here (root : path) (children : list (string * tree))
    : list (path * string) :=
  match children with
  | [] => []
  | (file, TFile data) :: r =>
      if skipped_file file then files_here root r
      else (path_join root file, data) :: files_here root r
  | (_, TDir _) :: r => files_here root r
  end.

(** The loop over [os.walk(root)]: the files of the directory, then the
    directories of [dirs] that are kept, each walked in turn.  A [root]
    that is not a directory gives nothing. *)
Fixpoint walk (root : path) (t : tree) : list (path * string) :=
  match t with
  | TFile _ => []
  | TDir children =>
      (files_here root children ++
       (fix below (cs : list (string * tree)) : list (path * string) :=
          match cs with
          | [] => []
          | (d, sub) :: r =>
              match sub with
              | TDir _ =>
                  if kept_dir d then (walk (path_join root d) sub ++ below r)%list
                  else below r
              | TFile _ => below r
              end
          end) children)%list
  end.

(** The archive [create_ansible_package] writes for the directory
    [ansible_dir] holding the tree [t]: one entry for each file walked,
    named by its path from the parent of [ansible_dir]. *)
Definition package_entries (ansible_dir : path) (t : tree) : list zip_entry :=
  map (fun f => mkEntry (join "/" (relpath (fst f) (dirname ansible_dir))) (snd f))
      (walk ansible_dir t).

(** The arguments [main] parses. *)
Record args : Type := mkArgs {
  arg_ansible_dir : path;
  arg_output : path;
  arg_s3_bucket : option string;
  arg_s3_key : string;
  arg_upload : bool
}.

(** The machine the script runs on: what is at a path, whether the
    archive can be opened for writing, whether the upload goes through. *)
Record host : Type := mkHost {
  disk : path -> option tree;
  zip_error : path -> option exn;
  upload_error : path -> string -> string -> option exn
}.

(** What a run of the script has done: the archives written and the
    uploads made. *)
Record effects : Type := mkEffects {
  packages : list (path * list zip_entry);
  uploads : list (path * string * string)
}.

Definition create_ansible_package (H : host) (ansible_dir output_file : path)
    : result (list zip_entry) :=
  match zip_error H output_file with
  | Some e => Raise e
  | None =>
      Ok match disk H ansible_dir with
         | Some t => package_entries ansible_dir t
         | None => []
         end
  end.

Definition upload_to_s3 (H : host) (file_path : path) (bucket key : string)
    : result string :=
  match upload_error H file_path bucket key with
  | Some e => Raise e
  | None => Ok ("s3://" ++ bucket ++ "/" ++ key)
  end.

(** [main()]: the exit status and what was done. *)
Definition main (H : host) (a : args) : Z * effects :=
  match disk H (arg_ansible_dir a) with
  | None => (1%Z, mkEffects [] [])
  | Some _ =>
      match create_ansible_package H (arg_ansible_dir a) (arg_output a) with
      | Raise _ => (1%Z, mkEffects [] [])
      | Ok entries =>
          let written := [(arg_output a, entries)] in
          if arg_upload a then
            match arg_s3_bucket a with
            | None => (1%Z, mkEffects written [])
            | Some bucket =>
                if String.eqb bucket "" then (1%Z, mkEffects written [])
                else
                  match upload_to_s3 H (arg_output a) bucket (arg_s3_key a) with
                  | Raise _ => (1%Z, mkEffects written [])
                  | Ok _ => (0%Z, mkEffects written [(arg_output a, bucket, arg_s3_key a)])
                  end
            end
          else (0%Z, mkEffects written [])
      end
  end.

(** The file with content [data] at the relative path [rel] of a tree. *)
Inductive file_at : tree -> list string -> string -> Prop :=
| file_here (children : list (string * tree)) (name data : string) :
    In (name, TFile data) children -> file_at (TDir children) [name] data
| file_below (children : list (string * tree)) (d : string) (sub : tree)
    (rel : list string) (data : string) :
    In (d, sub) children -> file_at sub rel data -> file_at (TDir children) (d :: rel) data.

(** A relative path the packaging keeps: no directory on it is pruned and
    the file name has none of the skipped suffixes. *)
Fixpoint kept (rel : list string) : bool :=
  match rel with
  | [] => false
  | [file] => negb (skipped_file file)
  | d :: r => kept_dir d && kept r
  end.

(** Induction over a tree and the trees below it. *)
Section TreeInduction.
Variable P : tree -> Prop.
Hypothesis P_file : forall data, P (TFile data).
Hypothesis P_dir :
  forall children, Forall (fun c => P (snd c)) children -> P (TDir children).

Fixpoint tree_induction (t : tree) : P t :=
  match t with
  | TFile data => P_file data
  | TDir children =>
      P_dir children
        ((fix all (cs : list (string * tree))
            : Forall (fun c => P (snd c)) cs :=
            match cs with
            | [] => Forall_nil _
            | c :: r => Forall_cons c (tree_induction (snd c)) (all r)
            end) children)
  end.
End TreeInduction.

(** A playbook directory with a repository, bytecode and a role. *)
Definition sample : tree :=
  TDir [("main.yml", TFile "- hosts: vm");
        (".git", TDir [("HEAD", TFile "ref: refs/heads/main")]);
        ("roles", TDir [("app", TDir [("tasks.yml", TFile "- name: deploy");
                                      ("filter.pyc", TFile "bytecode")])]);
        (".DS_Store", TFile "")].

Definition sample_host : host :=
  mkHost (fun p => if path_eqb p ["src"; "ansible"] then Some sample else None)
         (fun _ => None) (fun _ _ _ => None).

End PackageAnsible.

(** ** What the properties speak of *)

(** No workspace the run created is left in the file system. *)
Definition clean (st : state) : Prop :=
  Forall (fun wd => fs_exists wd (fs st) = false) (workspaces st).

(** In [deployment_lambda]: the workspaces created are the one the
    deployer holds, if it holds one. *)
Definition tidy (st : state) : Prop :=
  match deployer st with
  | Some (Some wd) => workspaces st = [wd]
  | _ => workspaces st = []
  end.

(** [p] lies in the tree rooted at [root]: below it, with no step back up. *)
Definition inside (root p : path) : Prop :=
  exists rest, p = path_app root rest /\ ~ In ".." rest.

(** Every file of [f] is a file of [f0], unchanged, or is at a path in [ok]. *)
Definition files_within (ok : path -> Prop) (f0 f : filesystem) : Prop :=
  forall p d m, In (p, File d m) f -> In (p, File d m) f0 \/ ok p.

(** Every file [m] creates or changes is at a path in [ok]. *)
Definition writes_within {A} (ok : path -> Prop) (m : M A) : Prop :=
  forall st, files_within ok (fs st) (fs (snd (m st))).

(** Reading the components of an entry name from a directory, whether
    some [..] climbs above that directory. *)
Fixpoint climbs_out (depth : nat) (comps : list string) : bool :=
  match comps with
  | [] => false
  | c :: r =>
      if String.eqb c ".." then
        match depth with
        | O => true
        | S d => climbs_out d r
        end
      else if String.eqb c "" || String.eqb c "." then climbs_out depth r
      else climbs_out (S depth) r
  end.

(** An entry name that, joined to the extraction target, names a place
    outside it: an absolute name, or one that climbs out. *)
Definition escapes (name : string) : bool :=
  starts_with "/" name || climbs_out 0 (split "/"%char name).

(** A request body that lacks one of the two required fields. *)
Definition missing_required (d : list (string * value)) : Prop :=
  assoc "service_name" d = None \/ assoc "jar_timestamp" d = None.

(** A request body whose [site], when it has one, is a string. *)
Definition site_is_text (d : list (string * value)) : Prop :=
  assoc "site" d = None \/ exists s, assoc "site" d = Some (VStr s).

(** Two characters that are the same but perhaps for their case, the
    letters being the ASCII letters. *)
Definition case_swap (a b : ascii) : Prop :=
  a = b \/
  (ascii_between "A"%char "Z"%char a = true /\ b = ascii_lower a) \/
  (ascii_between "A"%char "Z"%char b = true /\ a = ascii_lower b).

(** Two texts that differ only in the case of their letters. *)
Inductive case_variant : string -> string -> Prop :=
| cv_empty : case_variant EmptyString EmptyString
| cv_char (a b : ascii) (s t : string) :
    case_swap a b -> case_variant s t -> case_variant (String a s) (String b t).

(** Two entries of an event with the same key and the same value, but
    that under [site] the values may be two case variants of a text. *)
Definition field_variant (x y : string * value) : Prop :=
  fst x = fst y /\
  (snd x = snd y \/
   (fst x = "site" /\
    exists s t, snd x = VStr s /\ snd y = VStr t /\ case_variant s t)).

(** Two events that differ only in the letter case of the site field. *)
Definition differ_only_in_site_case (e1 e2 : value) : Prop :=
  exists d1 d2, e1 = VDict d1 /\ e2 = VDict d2 /\ Forall2 field_variant d1 d2.

(** The statuses a handler answers with. *)
Definition known_status (r : response) : Prop :=
  statusCode r = 200%Z \/ statusCode r = 400%Z \/ statusCode r = 500%Z.

(** [m], when it returns, returns a response with a known status. *)
Definition answers_known (m : M response) : Prop :=
  forall st r st', m st = (Ok r, st') -> known_status r.

(** [m] returns, whatever the state, a response with a known status. *)
Definition always_answers (m : M response) : Prop :=
  forall st, exists r st', m st = (Ok r, st') /\ known_status r.

(** An entry of the extra variables whose value is not [None]. *)
Definition non_null (kv : string * value) : bool :=
  match snd kv with
  | VNone => false
  | _ => true
  end.

(** [hoare P m Q Qe]: from a state in [P], [m] returns a value and a
    state in [Q], or raises in a state in [Qe]. *)
Definition hoare {A} (P : state -> Prop) (m : M A)
    (Q : A -> state -> Prop) (Qe : state -> Prop) : Prop :=
  forall st, P st ->
    match m st with
    | (Ok a, st') => Q a st'
    | (Raise _, st') => Qe st'
    end.

(** [keeps f m]: [m] leaves the part [f] of the state as it is. *)
Definition keeps {X A} (f : state -> X) (m : M A) : Prop :=
  forall st, f (snd (m st)) = f st.

(** The part of the state only workspace creation and the handler's
    [deployer] variable change. *)
Definition resources (st : state) : list path * option (option path) :=
  (workspaces st, deployer st).

(** Where a computation writes, from one state. *)
Definition writes_at {A} (ok : path -> Prop) (m : M A) (st : state) : Prop :=
  files_within ok (fs st) (fs (snd (m st))).

(** [p] is [wd] or lies below it, as [shutil.rmtree] sees it. *)
Definition under (wd p : path) : Prop := is_prefix wd p = true.

(** No path at all. *)
Definition nowhere (p : path) : Prop := False.

(** The files of the state are those of [f0] but for files at paths in [ok]. *)
Definition files_of_state (ok : path -> Prop) (f0 : filesystem) (st : state) : Prop :=
  files_within ok f0 (fs st).

(** [m] removes nothing: what exists before it exists after it. *)
Definition grows {A} (m : M A) : Prop :=
  forall st q, fs_exists q (fs st) = true -> fs_exists q (fs (snd (m st))) = true.

(** [deployment_lambda], between the body of the handler and its
    [finally] clause: when the deployer holds a workspace, the workspace
    is there and the files written are below it or are the key file [key];
    when it holds none, no file has been written. *)
Definition settled (key : path) (f0 : filesystem) (st : state) : Prop :=
  match deployer st with
  | Some (Some wd) =>
      fs_exists wd (fs st) = true /\
      files_within (fun p => under wd p \/ p = key) f0 (fs st)
  | _ => files_within nowhere f0 (fs st)
  end.

(** [deployment_lambda], once the workspace [wd] is made: the deployer
    holds it, it is there, and the files written are below it or are the
    key file. *)
Definition staged (key wd : path) (f0 : filesystem) (st : state) : Prop :=
  deployer st = Some (Some wd) /\
  fs_exists wd (fs st) = true /\
  files_within (fun p => under wd p \/ p = key) f0 (fs st).

(** [deployment_lambda], before the workspace is made: the deployer is
    [d], which holds no workspace, and no file has been written. *)
Definition unstaged (d : option (option path)) (f0 : filesystem) (st : state) : Prop :=
  deployer st = d /\ files_within nowhere f0 (fs st).

(** [m], when it returns, returns a value in [P]. *)
Definition returns_only {A} (P : A -> Prop) (m : M A) : Prop :=
  forall st a st', m st = (Ok a, st') -> P a.

(** The tool was run and exited with status 0. *)
Definition tool_succeeded (E : platform) : Prop :=
  exists cmd dir env cp, subprocess_run E cmd dir env = Ok cp /\ cp_returncode cp = 0%Z.

(** Every text the body holds under one of the keys is at most [n] long. *)
Definition excerpts_within (n : nat) (keys : list string) (r : response) : Prop :=
  forall k s, In k keys -> assoc k (body r) = Some (VStr s) -> String.length s <= n.

(** A text with no white space at either end. *)
Definition trimmed (s : string) : Prop :=
  lstrip s = s /\ lstrip (str_rev s) = str_rev s.

(** A name a directory can hold: not empty, without [/], and neither
    [.] nor [..]. *)
Definition plain_name (c : string) : bool :=
  negb (str_contains "/" c) && negb (existsb (String.eqb c) [""; "."; ".."]).

(** Every file the packaging takes from the tree is reached through plain
    names. *)
Definition plain_files (t : PackageAnsible.tree) : bool :=
  forallb (fun f => forallb plain_name (fst f)) (PackageAnsible.walk [] t).

(** ** Scenarios *)

(** A platform for concrete runs: one site record and one key in the
    secret store, a bundle with the entries given, and an external tool
    with the outcome given. *)
Module Scenario.

Definition dq : string := String (ascii_of_nat 34) EmptyString.

Definition vm_json : string :=
  "{" ++ dq ++ "VM_HOSTNAME" ++ dq ++ ": " ++ dq ++ "vm1.example" ++ dq ++ ", "
      ++ dq ++ "VM_USERNAME" ++ dq ++ ": " ++ dq ++ "deploy" ++ dq ++ "}".

Definition vm_record : value :=
  VDict [("VM_HOSTNAME", VStr "vm1.example"); ("VM_USERNAME", VStr "deploy")].

Definition key_text : string := "-----BEGIN KEY-----".

Definition with_tool (tool : result completed_process) (entries : list zip_entry)
    : platform :=
  mkPlatform
    (fun s => if String.eqb s vm_json then Some vm_record else None)
    (fun _ => "[...]")
    (fun b => if all_ascii b then Some b else None)
    [("ANSIBLE_S3_BUCKET", "playbooks"); ("AWS_S3_BUCKET_REPOSITORY", "artifacts")]
    ["var"; "task"]
    ["home"; "sbx"]
    (fun id =>
       if String.eqb id "demoapp/vm/sit1" then Ok (mkSecret (Some vm_json) None)
       else if String.eqb id "demoapp/vm/ssh-key" then Ok (mkSecret (Some key_text) None)
       else Raise (mkExn ClientError "ResourceNotFoundException"))
    (fun name _ =>
       if String.eqb name "/demoapp/vm/ssh-key" then Ok key_text
       else if String.eqb name "/demoapp/vm/sit1/hostname" then Ok "vm1.example"
       else if starts_with "/demoapp/vm/sit1/" name then Ok "x"
       else Raise (mkExn ClientError "ParameterNotFound"))
    (fun _ _ => Ok "PK-bundle")
    (fun d => if String.eqb d "PK-bundle" then Some entries else None)
    (fun prefix => Ok ["tmp"; prefix ++ "x1"])
    (fun _ _ _ => tool)
    (fun _ _ => None).

Definition fs0 : filesystem :=
  [([], Dir); (["tmp"], Dir); (["var"], Dir); (["var"; "task"], Dir);
   (["var"; "task"; "ansible_bundle.zip"], File "PK-bundle" 420)].

Definition st0 : state := init_state fs0 [].

Definition playbooks : list zip_entry := [mkEntry "ansible/main.yml" "- hosts: vm"].

(** A bundle with an entry that climbs out of the target. *)
Definition slipping : list zip_entry :=
  [mkEntry "ansible/main.yml" "- hosts: vm"; mkEntry "../evil.sh" "exit"].

(** A run that has made its workspace [/tmp/w] and is about to stage. *)
Definition workspace : path := ["tmp"; "w"].
Definition staging : state :=
  mkState (fs_put workspace Dir fs0) [] [] [workspace] (Some (Some workspace)).

(** A key held in the store as text that is also well-formed base64. *)
Definition text_key : string := "aGVsbG8=".

Definition tool_ok : result completed_process := Ok (mkCompleted 0 "PLAY RECAP" "").

(** The object store holds the archive [package_ansible] makes of
    [src/ansible]. *)
Definition packaged : platform :=
  with_tool (Ok (mkCompleted 0 "PLAY RECAP" ""))
    (PackageAnsible.package_entries ["src"; "ansible"] PackageAnsible.sample).
Definition tool_timeout : result completed_process :=
  Raise (mkExn TimeoutExpired "Command timed out after 900 seconds").

Definition event_sit1 : value :=
  VDict [("service_name", VStr "svc1"); ("jar_timestamp", VStr "t1"); ("site", VStr "sit1")].

(** A request without [service_name], and one whose [site] is [null]. *)
Definition event_no_service : value := VDict [("jar_timestamp", VStr "t1")].

Definition event_null_site : value :=
  VDict [("jar_timestamp", VStr "t1"); ("site", VNone)].

(** A request for a site the secret store has no record of. *)
Definition event_unknown_site : value :=
  VDict [("service_name", VStr "svc1"); ("jar_timestamp", VStr "t1"); ("site", VStr "uat9")].

Definition event_SIT1 : value :=
  VDict [("service_name", VStr "svc1"); ("jar_timestamp", VStr "t1"); ("site", VStr "SIT1")].

End Scenario.

(** * Properties *)

(** ** Text *)

Lemma str_drop_length (k : nat) (s : string) :
  String.length (str_drop k s) = String.length s - k.
Proof.
  revert s; induction k as [|k IH]; intros s; simpl.
  - lia.
  - destruct s as [|c r]; simpl; [reflexivity | apply IH].
Qed.

Lemma str_drop_drop (a b : nat) (s : string) :
  str_drop a (str_drop b s) = str_drop (a + b) s.
Proof.
  revert s; induction b as [|b IH]; intros s.
  - simpl. now rewrite Nat.add_0_r.
  - rewrite Nat.add_succ_r. destruct s as [|c r]; simpl.
    + now destruct a.
    + apply IH.
Qed.

Lemma tail_length (n : N) (s : string) :
  n <> 0%N ->
  String.length (tail n s) = Nat.min (String.length s) (N.to_nat n).
Proof.
  intros Hn. unfold tail, py_slice_from.
  destruct (Z.ltb_spec (- Z.of_N n) 0) as [_|H]; [|lia].
  rewrite str_drop_length. lia.
Qed.

(** The handlers cut the executor's tail of 20000 characters down to 2000
    or 4000: that is the tail of the full text. *)
Lemma tail_tail_le (m n : N) (s : string) :
  (0 < m <= n)%N -> tail m (tail n s) = tail m s.
Proof.
  intros [Hm Hmn].
  assert (Hlen : String.length (tail n s) = Nat.min (String.length s) (N.to_nat n))
    by (apply tail_length; lia).
  unfold tail, py_slice_from in *.
  destruct (Z.ltb_spec (- Z.of_N n) 0) as [_|H]; [|lia].
  destruct (Z.ltb_spec (- Z.of_N m) 0) as [_|H]; [|lia].
  rewrite Hlen, str_drop_drop. f_equal. lia.
Qed.

Lemma tail_0 (s : string) : tail 0 s = s.
Proof.
  unfold tail, py_slice_from.
  change (- Z.of_N 0)%Z with 0%Z. change (0 <? 0)%Z with false. cbv iota.
  replace (Z.min 0 (Z.of_nat (String.length s))) with 0%Z by lia.
  reflexivity.
Qed.

(** C8.  For every string and every bound, the tail of a tail taken with
    the same bound is that tail: truncating an already truncated
    stdout or stderr again changes nothing. *)
Theorem tail_idempotent (n : N) (s : string) :
  tail n (tail n s) = tail n s.
Proof.
  destruct (N.eq_dec n 0) as [->|Hn].
  - now rewrite !tail_0.
  - apply tail_tail_le. lia.
Qed.

(** Unfolding the monad's operations in a goal. *)
Ltac run_monad :=
  cbv beta iota zeta delta
    [bind try_except try_finally ret raise lift get_state modify fst snd].

Ltac run_monad_in H :=
  cbv beta iota zeta delta
    [bind try_except try_finally ret raise lift get_state modify fst snd] in H.

(** ** The command line *)

Lemma pair_is_not_flag (k t : string) : k ++ "=" ++ t <> "-e".
Proof.
  destruct k as [|a [|b [|c k]]]; simpl; discriminate.
Qed.

Lemma count_flag_pair (k t : string) (l : list string) :
  count_occ string_dec ("-e" :: (k ++ "=" ++ t) :: l) "-e" = S (count_occ string_dec l "-e").
Proof.
  rewrite count_occ_cons_eq by reflexivity.
  rewrite count_occ_cons_neq by apply pair_is_not_flag.
  reflexivity.
Qed.

(** [ansible_lambda]: one [-e] pair for each entry that is not [None]. *)
Lemma ansible_extra_args_count (E : platform) (extra : list (string * value)) :
  count_occ string_dec (AnsibleLambda.extra_args E extra) "-e"
  = List.length (filter non_null extra).
Proof.
  induction extra as [|[k v] r IH]; [reflexivity|].
  destruct v; cbn [AnsibleLambda.extra_args filter non_null snd List.length];
    try rewrite count_flag_pair; auto.
Qed.

Lemma ansible_playbook_cmd_count (E : platform) (dir : path) (extra : list (string * value)) :
  count_occ string_dec (AnsibleLambda.playbook_cmd E dir extra) "-e"
  = List.length (filter non_null extra).
Proof.
  unfold AnsibleLambda.playbook_cmd. rewrite count_occ_app, ansible_extra_args_count.
  cbn [count_occ]. repeat (destruct (string_dec _ _); [discriminate|]). reflexivity.
Qed.

(** [ansible_lambda]: every argument after the fixed block is [-e] or
    renders an entry that is not [None]. *)
Lemma ansible_extra_args_non_null (E : platform) (extra : list (string * value)) (a : string) :
  In a (AnsibleLambda.extra_args E extra) ->
  a = "-e" \/ exists k v, In (k, v) extra /\ v <> VNone /\ a = k ++ "=" ++ py_str (py_repr E) v.
Proof.
  induction extra as [|[k v] r IH]; [intros []|].
  assert (Hr : In a (AnsibleLambda.extra_args E r) ->
               a = "-e" \/ exists k' v', In (k', v') ((k, v) :: r) /\ v' <> VNone /\
                                        a = k' ++ "=" ++ py_str (py_repr E) v').
  { intros H. destruct (IH H) as [->|(k' & v' & Hin & Hv & ->)]; [now left|].
    right. exists k', v'. repeat split; auto. now right. }
  destruct v; cbn [AnsibleLambda.extra_args]; [exact Hr|..];
    (intros [<-|[<-|H]]; [now left| |now apply Hr]);
    right; eexists k, _; (split; [now left | split; [discriminate | reflexivity]]).
Qed.

(** [deployment_lambda]: one [-e] pair for every entry, [None] or not. *)
Lemma deployment_extra_vars_count (E : platform) (extra : list (string * value)) :
  count_occ string_dec (DeploymentLambda.extra_vars_list E extra) "-e" = List.length extra.
Proof.
  induction extra as [|[k v] r IH]; [reflexivity|].
  cbn [DeploymentLambda.extra_vars_list List.length]. now rewrite count_flag_pair, IH.
Qed.

Lemma deployment_renders_none (E : platform) (extra : list (string * value)) (k : string) :
  In (k, VNone) extra -> In (k ++ "=None") (DeploymentLambda.extra_vars_list E extra).
Proof.
  induction extra as [|[k' v] r IH]; [intros []|].
  intros [H|H]; cbn [DeploymentLambda.extra_vars_list].
  - injection H as -> ->. right. now left.
  - right. right. now apply IH.
Qed.

(** C4, on [deployment_lambda].  A mapping with one entry that is not
    [None] and one that is gives two [-e] pairs there, the second one
    spelling the missing value [None]. *)
Theorem deployment_cmd_spells_none (E : platform) (inventory_path : path) :
  DeploymentLambda.playbook_cmd E inventory_path
    [("service_name", VStr "svc1"); ("aws_default_region", VNone)]
  = ["ansible-playbook"; "-i"; path_str inventory_path; "main.yml";
     "--ssh-common-args"; ssh_common_args; "-vvv";
     "-e"; "service_name=svc1"; "-e"; "aws_default_region=None"].
Proof. reflexivity. Qed.

(** ** The executor and the timeout *)

(** [deployment_lambda]: the executor has an answer for every exception. *)
Lemma execute_ansible_playbook_returns (E : platform) (dir inv : path)
    (extra : list (string * value)) (st : state) :
  exists r, fst (DeploymentLambda.execute_ansible_playbook E dir inv extra st) = Ok r.
Proof.
  unfold DeploymentLambda.execute_ansible_playbook, try_except.
  destruct (bind _ _ st) as [[r|e] st']; simpl.
  - now exists r.
  - destruct (is_timeout e); simpl; eauto.
Qed.

(** [deployment_lambda]: a timeout of the tool becomes the failure
    [returncode = -1] with the timeout named in [stderr]. *)
Lemma execute_ansible_playbook_timeout (E : platform) (dir inv : path)
    (extra : list (string * value)) (st : state) (e : exn) :
  fault E OpGetcwd [] = None ->
  fault E OpChdir dir = None ->
  fs_isdir dir (fs st) = true ->
  subprocess_run E (DeploymentLambda.playbook_cmd E inv extra) dir
    (DeploymentLambda.playbook_env E) = Raise e ->
  is_timeout e = true ->
  fst (DeploymentLambda.execute_ansible_playbook E dir inv extra st)
  = Ok (mkResult (-1) "" "Execution timed out after 15 minutes" false).
Proof.
  intros Hg Hc Hd Hrun Ht.
  unfold DeploymentLambda.execute_ansible_playbook, getcwd, chdir, check_fault.
  rewrite Hg, Hc. run_monad. rewrite Hd. run_monad.
  cbn [cwd set_cwd]. rewrite Hrun. run_monad. now rewrite Ht.
Qed.

(** C1, on [ansible_lambda].  When the tool runs into the timeout,
    [_run_playbook] has no result: the exception of [subprocess.run]
    leaves it as it came. *)
Theorem run_playbook_timeout_escapes (E : platform) (dir : path)
    (extra : list (string * value)) (key : path) (st : state) (e : exn) :
  subprocess_run E (AnsibleLambda.playbook_cmd E dir extra) dir
    (AnsibleLambda.playbook_env E) = Raise e ->
  is_timeout e = true ->
  AnsibleLambda._run_playbook E dir extra key st = (Raise e, st).
Proof.
  intros Hrun _. unfold AnsibleLambda._run_playbook, bind, lift.
  now rewrite Hrun.
Qed.

Lemma run_playbook_timeout_escapes_witness :
  AnsibleLambda._run_playbook (Scenario.with_tool Scenario.tool_timeout Scenario.playbooks)
    ["tmp"; "w"; "ansible"] [] ["tmp"; "w"; "id_rsa"] Scenario.st0
  = (Raise (mkExn TimeoutExpired "Command timed out after 900 seconds"), Scenario.st0).
Proof.
  apply (run_playbook_timeout_escapes
           (Scenario.with_tool Scenario.tool_timeout Scenario.playbooks));
    reflexivity.
Defined.

(** The two handlers on a tool that times out: [ansible_lambda] answers
    from the [except] clause of the handler, with the text of the
    exception; [deployment_lambda] from the result its executor made. *)
Example ansible_timeout_response :
  fst (AnsibleLambda.lambda_handler
         (Scenario.with_tool Scenario.tool_timeout Scenario.playbooks)
         Scenario.event_sit1 Scenario.st0)
  = Ok (mkResponse 500 [("error", VStr "Command timed out after 900 seconds")]).
Proof. reflexivity. Qed.

Example deployment_timeout_response :
  fst (DeploymentLambda.lambda_handler
         (Scenario.with_tool Scenario.tool_timeout Scenario.playbooks)
         Scenario.event_sit1 Scenario.st0)
  = Ok (mkResponse 500
          [("error", VStr "Deployment failed");
           ("ansible_stderr", VStr "Execution timed out after 15 minutes");
           ("ansible_stdout", VStr "")]).
Proof. reflexivity. Qed.

(** ** Reasoning about runs *)

Section Rules.
Context {A B : Type}.

Lemma hoare_ret (P : state -> Prop) (a : A) (Q : A -> state -> Prop) Qe :
  (forall st, P st -> Q a st) -> hoare P (ret a) Q Qe.
Proof. intros H st HP. now apply H. Qed.

Lemma hoare_raise (P : state -> Prop) (e : exn) (Q : A -> state -> Prop) (Qe : state -> Prop) :
  (forall st, P st -> Qe st) -> hoare P (raise e) Q Qe.
Proof. intros H st HP. now apply H. Qed.

Lemma hoare_bind (P : state -> Prop) (m : M A) (k : A -> M B) R Q Qe :
  hoare P m R Qe -> (forall a, hoare (R a) (k a) Q Qe) -> hoare P (bind m k) Q Qe.
Proof.
  intros Hm Hk st HP. specialize (Hm st HP). unfold bind.
  destruct (m st) as [[a|e] st']; [now apply Hk | assumption].
Qed.

Lemma hoare_conseq (P P' : state -> Prop) (m : M A) (Q Q' : A -> state -> Prop)
    (Qe Qe' : state -> Prop) :
  hoare P' m Q' Qe' ->
  (forall st, P st -> P' st) ->
  (forall a st, Q' a st -> Q a st) ->
  (forall st, Qe' st -> Qe st) ->
  hoare P m Q Qe.
Proof.
  intros H HP HQ HQe st Hst. specialize (H st (HP st Hst)).
  destruct (m st) as [[a|e] st']; auto.
Qed.

Lemma hoare_try_except (P : state -> Prop) (m : M A) (h : exn -> M A) Q Qe R :
  hoare P m Q R -> (forall e, hoare R (h e) Q Qe) -> hoare P (try_except m h) Q Qe.
Proof.
  intros Hm Hh st HP. specialize (Hm st HP). unfold try_except.
  destruct (m st) as [[a|e] st']; [assumption | now apply Hh].
Qed.

Lemma hoare_try_finally (P : state -> Prop) (m : M A) (c : M unit) (R S : state -> Prop) :
  hoare P m (fun _ => R) R -> hoare R c (fun _ => S) S ->
  hoare P (try_finally m c) (fun _ => S) S.
Proof.
  intros Hm Hc st HP. specialize (Hm st HP). unfold try_finally.
  destruct (m st) as [r st'].
  assert (HR : R st') by (destruct r; assumption).
  specialize (Hc st' HR). destruct (c st') as [[[]|e] st'']; [|assumption].
  destruct r; assumption.
Qed.

Lemma hoare_keeps {X} (f : state -> X) (x : X) (m : M A) :
  keeps f m ->
  hoare (fun st => f st = x) m (fun _ st => f st = x) (fun st => f st = x).
Proof.
  intros Hk st HP. specialize (Hk st).
  destruct (m st) as [[a|e] st']; simpl in Hk; congruence.
Qed.

(** A step that keeps [f], followed by the rest. *)
Lemma hoare_bind_keeps {X} (f : state -> X) (x : X) (m : M A) (k : A -> M B) Q
    (Qe : state -> Prop) :
  keeps f m ->
  (forall st, f st = x -> Qe st) ->
  (forall a, hoare (fun st => f st = x) (k a) Q Qe) ->
  hoare (fun st => f st = x) (bind m k) Q Qe.
Proof.
  intros Hk HQe Hrest. apply hoare_bind with (R := fun _ st => f st = x); [|assumption].
  eapply hoare_conseq; [apply (hoare_keeps f x m Hk) | | |]; auto.
Qed.

Lemma keeps_ret {X} (f : state -> X) (a : A) : keeps f (ret a).
Proof. intros st. reflexivity. Qed.

Lemma keeps_raise {X} (f : state -> X) (e : exn) : keeps f (@raise A e).
Proof. intros st. reflexivity. Qed.

Lemma keeps_lift {X} (f : state -> X) (r : result A) : keeps f (lift r).
Proof. intros st. reflexivity. Qed.

Lemma keeps_bind {X} (f : state -> X) (m : M A) (k : A -> M B) :
  keeps f m -> (forall a, keeps f (k a)) -> keeps f (bind m k).
Proof.
  intros Hm Hk st. specialize (Hm st). unfold bind.
  destruct (m st) as [[a|e] st']; simpl in *; [|assumption].
  now rewrite Hk.
Qed.

Lemma keeps_try_except {X} (f : state -> X) (m : M A) (h : exn -> M A) :
  keeps f m -> (forall e, keeps f (h e)) -> keeps f (try_except m h).
Proof.
  intros Hm Hh st. specialize (Hm st). unfold try_except.
  destruct (m st) as [[a|e] st']; simpl in *; [assumption|].
  now rewrite Hh.
Qed.

Lemma keeps_try_finally {X} (f : state -> X) (m : M A) (c : M unit) :
  keeps f m -> keeps f c -> keeps f (try_finally m c).
Proof.
  intros Hm Hc st. specialize (Hm st). unfold try_finally.
  destruct (m st) as [r st']. specialize (Hc st').
  destruct (c st') as [[[]|e] st'']; simpl in *; congruence.
Qed.

End Rules.

Lemma keeps_get_state {X} (f : state -> X) : keeps f get_state.
Proof. intros st. reflexivity. Qed.

Lemma keeps_for_each {X A} (f : state -> X) (g : A -> M unit) (l : list A) :
  (forall a, keeps f (g a)) -> keeps f (for_each g l).
Proof.
  intros Hg. induction l as [|a l IH]; simpl.
  - apply keeps_ret.
  - apply keeps_bind; auto.
Qed.

Create HintDb keeps.

(** One step in showing that a computation keeps a part of the state:
    the monad's operations by their rules, a branch by cases, a change of
    another part of the state by computation, a function of the program
    by what was shown of it before. *)
Ltac keeps_step :=
  lazymatch goal with
  | |- keeps _ (bind _ _) => apply keeps_bind; [|intro]
  | |- keeps _ (ret _) => apply keeps_ret
  | |- keeps _ (raise _) => apply keeps_raise
  | |- keeps _ (lift _) => apply keeps_lift
  | |- keeps _ get_state => apply keeps_get_state
  | |- keeps _ (try_except _ _) => apply keeps_try_except; [|intro]
  | |- keeps _ (try_finally _ _) => apply keeps_try_finally
  | |- keeps _ (for_each _ _) => apply keeps_for_each; intro
  | |- keeps _ (modify _) => intro; reflexivity
  | |- keeps _ (if ?b then _ else _) => destruct b
  | |- keeps _ (match ?x with _ => _ end) => destruct x
  | |- keeps _ _ => solve [auto with keeps]
  end.

Ltac keeps_tac := cbv zeta; repeat keeps_step.

Section KeepsResources.
Variable E : platform.

Lemma check_fault_keeps op p : keeps resources (check_fault E op p).
Proof. unfold check_fault. keeps_tac. Qed.
Hint Resolve check_fault_keeps : keeps.

Lemma write_text_keeps p d : keeps resources (write_text E p d).
Proof. unfold write_text. keeps_tac. Qed.

Lemma chmod_keeps p m : keeps resources (chmod E p m).
Proof. unfold chmod. keeps_tac. Qed.

Lemma rmtree_keeps p i : keeps resources (rmtree p i).
Proof. unfold rmtree. keeps_tac. Qed.

Lemma copytree_keeps src dst : keeps resources (copytree E src dst).
Proof. unfold copytree. keeps_tac. Qed.

Lemma makedirs_keeps p : keeps resources (makedirs E p).
Proof. unfold makedirs. keeps_tac. Qed.

Lemma mkdir_keeps p : keeps resources (mkdir E p).
Proof. unfold mkdir. keeps_tac. Qed.

Lemma getcwd_keeps : keeps resources (getcwd E).
Proof. unfold getcwd. keeps_tac. Qed.

Lemma chdir_keeps p : keeps resources (chdir E p).
Proof. unfold chdir. keeps_tac. Qed.

Hint Resolve write_text_keeps chmod_keeps rmtree_keeps copytree_keeps makedirs_keeps
  mkdir_keeps getcwd_keeps chdir_keeps : keeps.

Lemma unpack_entry_keeps dir e : keeps resources (unpack_entry E dir e).
Proof. unfold unpack_entry. keeps_tac. Qed.

Lemma extract_member_keeps dir e : keeps resources (extract_member E dir e).
Proof. unfold extract_member. keeps_tac. Qed.

Hint Resolve unpack_entry_keeps extract_member_keeps : keeps.

Lemma unpack_archive_keeps file dir : keeps resources (unpack_archive E file dir).
Proof. unfold unpack_archive. keeps_tac. Qed.

Lemma extractall_keeps file dir : keeps resources (extractall E file dir).
Proof. unfold extractall. keeps_tac. Qed.

Lemma get_secret_value_keeps id : keeps resources (get_secret_value E id).
Proof. unfold get_secret_value. keeps_tac. Qed.

Lemma ssm_get_parameter_keeps name d : keeps resources (ssm_get_parameter E name d).
Proof. unfold ssm_get_parameter. keeps_tac. Qed.

End KeepsResources.

#[export] Hint Resolve check_fault_keeps write_text_keeps chmod_keeps rmtree_keeps
  copytree_keeps makedirs_keeps mkdir_keeps getcwd_keeps chdir_keeps unpack_entry_keeps
  extract_member_keeps unpack_archive_keeps extractall_keeps get_secret_value_keeps
  ssm_get_parameter_keeps : keeps.

Section KeepsAnsible.
Variable E : platform.

Lemma copy_embedded_ansible_keeps wd :
  keeps resources (AnsibleLambda._copy_embedded_ansible E wd).
Proof. unfold AnsibleLambda._copy_embedded_ansible. keeps_tac. Qed.

Lemma get_json_secret_keeps id : keeps resources (AnsibleLambda._get_json_secret E id).
Proof. unfold AnsibleLambda._get_json_secret. keeps_tac. Qed.

Lemma write_ssh_key_keeps wd id : keeps resources (AnsibleLambda._write_ssh_key E wd id).
Proof. unfold AnsibleLambda._write_ssh_key. keeps_tac. Qed.

Lemma create_inventory_keeps dir h u s :
  keeps resources (AnsibleLambda._create_inventory E dir h u s).
Proof. unfold AnsibleLambda._create_inventory. keeps_tac. Qed.

Lemma run_playbook_keeps dir extra key :
  keeps resources (AnsibleLambda._run_playbook E dir extra key).
Proof. unfold AnsibleLambda._run_playbook. keeps_tac. Qed.

End KeepsAnsible.

Section KeepsDeployment.
Variable E : platform.

Lemma get_secret_parameter_keeps name d :
  keeps resources (DeploymentLambda.get_secret_parameter E name d).
Proof. unfold DeploymentLambda.get_secret_parameter. keeps_tac. Qed.
Hint Resolve get_secret_parameter_keeps : keeps.

Lemma get_inventory_mapping_keeps site :
  keeps resources (DeploymentLambda.get_inventory_mapping E site).
Proof. unfold DeploymentLambda.get_inventory_mapping. keeps_tac. Qed.

Lemma setup_ssh_key_keeps content :
  keeps resources (DeploymentLambda.setup_ssh_key E content).
Proof. unfold DeploymentLambda.setup_ssh_key. keeps_tac. Qed.

Lemma download_ansible_package_keeps b k :
  keeps resources (DeploymentLambda.download_ansible_package E b k).
Proof.
  unfold DeploymentLambda.download_ansible_package, DeploymentLambda.self_work_dir.
  keeps_tac.
Qed.

Lemma create_inventory_file_keeps dir h u s :
  keeps resources (DeploymentLambda.create_inventory_file E dir h u s).
Proof. unfold DeploymentLambda.create_inventory_file. keeps_tac. Qed.

Lemma execute_ansible_playbook_keeps dir inv extra :
  keeps resources (DeploymentLambda.execute_ansible_playbook E dir inv extra).
Proof. unfold DeploymentLambda.execute_ansible_playbook. keeps_tac. Qed.

End KeepsDeployment.

#[export] Hint Resolve copy_embedded_ansible_keeps get_json_secret_keeps write_ssh_key_keeps
  create_inventory_keeps run_playbook_keeps get_secret_parameter_keeps
  get_inventory_mapping_keeps setup_ssh_key_keeps download_ansible_package_keeps
  create_inventory_file_keeps execute_ansible_playbook_keeps : keeps.

(** ** The workspace *)

Lemma path_eqb_is_prefix (p q : path) : path_eqb p q = true -> is_prefix p q = true.
Proof.
  revert q; induction p as [|a p IH]; intros [|b q]; simpl; try easy.
  intros H. apply andb_true_iff in H as [-> H]. now apply IH.
Qed.

Lemma fs_lookup_remove_tree (p : path) (f : filesystem) :
  fs_lookup p (fs_remove_tree p f) = None.
Proof.
  induction f as [|[q n] f IH]; [reflexivity|].
  unfold fs_remove_tree in *. simpl.
  destruct (is_prefix p q) eqn:Hpq; simpl; [assumption|].
  destruct (path_eqb p q) eqn:Heq; [|assumption].
  apply path_eqb_is_prefix in Heq. congruence.
Qed.

Lemma fs_exists_remove_tree (p : path) (f : filesystem) :
  fs_exists p (fs_remove_tree p f) = false.
Proof. unfold fs_exists. now rewrite fs_lookup_remove_tree. Qed.

Lemma clean_no_workspace (st : state) : workspaces st = [] -> clean st.
Proof. unfold clean. intros ->. constructor. Qed.

(** [mkdtemp] records the workspace it creates and nothing else. *)
Lemma mkdtemp_hoare (E : platform) (prefix : string) (d : option (option path))
    (Qe : state -> Prop) :
  (forall st, resources st = ([], d) -> Qe st) ->
  hoare (fun st => resources st = ([], d)) (mkdtemp E prefix)
    (fun wd st => resources st = ([wd], d)) Qe.
Proof.
  intros HQe st H. unfold mkdtemp.
  destruct (tempfile_mkdtemp E prefix) as [p|e]; [|now apply HQe].
  run_monad. unfold resources in *. simpl. now injection H as -> ->.
Qed.

(** Removing the only workspace leaves a clean state. *)
Lemma rmtree_hoare (wd : path) (d : option (option path)) :
  hoare (fun st => resources st = ([wd], d)) (rmtree wd true) (fun _ => clean) clean.
Proof.
  intros st H. unfold rmtree. run_monad. simpl.
  injection H as Hw _. unfold clean. simpl. rewrite Hw.
  constructor; [apply fs_exists_remove_tree | constructor].
Qed.

Ltac step_keeps_by t :=
  apply hoare_bind_keeps;
  [ solve [auto with keeps | keeps_tac] | solve [t] | intro ].

Ltac step_keeps :=
  step_keeps_by ltac:(intros ? H; apply clean_no_workspace; now injection H).

Lemma ansible_handler_hoare (E : platform) (event : value) (d : option (option path)) :
  hoare (fun st => resources st = ([], d)) (AnsibleLambda.lambda_handler E event)
    (fun _ => clean) clean.
Proof.
  unfold AnsibleLambda.lambda_handler.
  apply hoare_try_except with (R := clean).
  2:{ intros e. apply hoare_ret. auto. }
  step_keeps.
  match goal with |- hoare _ (if ?b then _ else _) _ _ => destruct b end.
  { apply hoare_ret. intros st H. apply clean_no_workspace. now injection H. }
  cbv zeta. do 6 step_keeps.
  apply hoare_bind with (R := fun wd st => resources st = ([wd], d)).
  { apply mkdtemp_hoare. intros st H. apply clean_no_workspace. now injection H. }
  intros wd. apply hoare_try_finally with (R := fun st => resources st = ([wd], d)).
  - apply hoare_keeps. keeps_tac.
  - apply rmtree_hoare.
Qed.

Lemma tidy_of_resources (st : state) (ws : list path) (d : option (option path)) :
  resources st = (ws, d) ->
  match d with Some (Some wd) => ws = [wd] | _ => ws = [] end ->
  tidy st.
Proof. unfold resources, tidy. intros H. injection H as -> ->. auto. Qed.

Lemma new_deployer_hoare (E : platform) :
  hoare (fun st => resources st = ([], None)) (DeploymentLambda.new_deployer E)
    (fun _ st => resources st = ([], Some None)) tidy.
Proof.
  intros st H. unfold DeploymentLambda.new_deployer, check_fault.
  destruct (fault E OpClient []); run_monad.
  - now apply (tidy_of_resources st [] None).
  - unfold resources in *. simpl. now injection H as -> _.
Qed.

Lemma setup_work_directory_hoare (E : platform) :
  hoare (fun st => resources st = ([], Some None)) (DeploymentLambda.setup_work_directory E)
    (fun wd st => resources st = ([wd], Some (Some wd))) tidy.
Proof.
  unfold DeploymentLambda.setup_work_directory.
  apply hoare_bind with (R := fun wd st => resources st = ([wd], Some None)).
  - apply mkdtemp_hoare. intros st H. now apply (tidy_of_resources st [] (Some None)).
  - intros wd st H. run_monad. unfold resources in *. simpl. now injection H as -> _.
Qed.

(** The [finally] clause of [deployment_lambda]'s handler. *)
Lemma deployment_finally_hoare :
  hoare tidy
    (st <- get_state ;;
     match deployer st with
     | Some _ => DeploymentLambda.cleanup
     | None => ret tt
     end)
    (fun _ => clean) clean.
Proof.
  intros st H. unfold tidy in H. unfold DeploymentLambda.cleanup, rmtree. run_monad.
  destruct (deployer st) as [[wd|]|] eqn:Hd; run_monad; rewrite ?Hd;
    try (now apply clean_no_workspace).
  destruct (fs_exists wd (fs st)) eqn:Hex; run_monad; rewrite ?Hex; simpl;
    unfold clean; simpl; rewrite H; (constructor; [|constructor]).
  - apply fs_exists_remove_tree.
  - assumption.
Qed.

Lemma deployment_handler_hoare (E : platform) (event : value) :
  hoare (fun st => workspaces st = []) (DeploymentLambda.lambda_handler E event)
    (fun _ => clean) clean.
Proof.
  unfold DeploymentLambda.lambda_handler.
  apply hoare_bind with (R := fun _ st => resources st = ([], None)).
  { intros st H. run_monad. unfold resources. simpl. now rewrite H. }
  intros _. apply hoare_try_finally with (R := tidy); [|apply deployment_finally_hoare].
  apply hoare_try_except with (R := tidy).
  2:{ intros e. apply hoare_ret. auto. }
  step_keeps_by ltac:(intros ? H; now apply (tidy_of_resources _ _ _ H)).
  match goal with |- hoare _ (if ?b then _ else _) _ _ => destruct b end.
  { apply hoare_ret. intros st H. now apply (tidy_of_resources _ _ _ H). }
  cbv zeta.
  apply hoare_bind with (R := fun _ st => resources st = ([], Some None));
    [apply new_deployer_hoare | intros _].
  apply hoare_bind with (R := fun wd st => resources st = ([wd], Some (Some wd)));
    [apply setup_work_directory_hoare | intros wd].
  do 5 step_keeps_by ltac:(intros ? H; now apply (tidy_of_resources _ _ _ H)).
  match goal with |- hoare _ (if ?b then _ else _) _ _ => destruct b end;
    apply hoare_ret; intros st H; now apply (tidy_of_resources _ _ _ H).
Qed.

(** ** The handler's answer *)

Lemma answers_ret (r : response) : known_status r -> answers_known (ret r).
Proof. intros H st r' st' Heq. injection Heq as <- _. exact H. Qed.

Lemma answers_bind {A} (m : M A) (k : A -> M response) :
  (forall a, answers_known (k a)) -> answers_known (bind m k).
Proof.
  intros Hk st r st'. unfold bind. destruct (m st) as [[a|e] st1]; [apply Hk|discriminate].
Qed.

Lemma answers_try_finally (m : M response) (c : M unit) :
  answers_known m -> answers_known (try_finally m c).
Proof.
  intros Hm st r st'. unfold try_finally.
  destruct (m st) as [r1 st1] eqn:Hmst. destruct (c st1) as [[[]|e] st2]; [|discriminate].
  intros Heq. injection Heq as -> _. now apply (Hm st r st1).
Qed.

Ltac answers_tac :=
  cbv zeta;
  repeat first
    [ apply answers_bind; intro
    | apply answers_try_finally
    | apply answers_ret; unfold known_status; simpl; tauto
    | match goal with |- answers_known (if ?b then _ else _) => destruct b end ].

Lemma answers_try_except (m : M response) (h : exn -> M response) :
  answers_known m -> (forall e, always_answers (h e)) -> always_answers (try_except m h).
Proof.
  intros Hm Hh st. unfold try_except.
  destruct (m st) as [[r|e] st'] eqn:Hrun; [|apply Hh].
  exists r, st'. split; [reflexivity | exact (Hm st r st' Hrun)].
Qed.

Lemma always_try_finally (m : M response) (c : M unit) :
  always_answers m -> (forall st, exists st', c st = (Ok tt, st')) ->
  always_answers (try_finally m c).
Proof.
  intros Hm Hc st. unfold try_finally.
  destruct (Hm st) as (r & st1 & -> & Hr). destruct (Hc st1) as (st2 & ->).
  now exists r, st2.
Qed.

Lemma always_ret (r : response) : known_status r -> always_answers (ret r).
Proof. intros H st. now exists r, st. Qed.

Lemma always_after_modify (f : state -> state) (k : M response) :
  always_answers k -> always_answers (modify f ;; k).
Proof. intros Hk st. apply (Hk (f st)). Qed.

(** [ansible_lambda]: the handler answers whatever happens. *)
Lemma ansible_handler_answers (E : platform) (event : value) :
  always_answers (AnsibleLambda.lambda_handler E event).
Proof.
  unfold AnsibleLambda.lambda_handler. apply answers_try_except.
  - answers_tac.
  - intros e. apply always_ret. unfold known_status. simpl. tauto.
Qed.

(** The [finally] clause of [deployment_lambda]'s handler raises nothing:
    the tree is removed only when it is there. *)
Lemma deployment_finally_returns (st : state) :
  exists st',
    (st <- get_state ;;
     match deployer st with
     | Some _ => DeploymentLambda.cleanup
     | None => ret tt
     end) st = (Ok tt, st').
Proof.
  unfold DeploymentLambda.cleanup, rmtree. run_monad.
  destruct (deployer st) as [[wd|]|] eqn:Hd; run_monad; rewrite ?Hd; eauto.
  destruct (fs_exists wd (fs st)) eqn:Hex; run_monad; rewrite ?Hex; simpl; eauto.
Qed.

(** [deployment_lambda]: the handler answers whatever happens. *)
Lemma deployment_handler_answers (E : platform) (event : value) :
  always_answers (DeploymentLambda.lambda_handler E event).
Proof.
  unfold DeploymentLambda.lambda_handler.
  apply always_after_modify, always_try_finally; [|apply deployment_finally_returns].
  apply answers_try_except.
  - answers_tac.
  - intros e. apply always_ret. unfold known_status. simpl. tauto.
Qed.

(** C9.  For every event and every platform, [lambda_handler] of
    [ansible_lambda] returns a response whose status is 200, 400 or 500;
    no exception leaves it. *)
Theorem ansible_handler_always_answers (E : platform) (event : value) (st : state) :
  exists r, fst (AnsibleLambda.lambda_handler E event st) = Ok r /\ known_status r.
Proof.
  destruct (ansible_handler_answers E event st) as (r & st' & Hrun & Hr).
  exists r. now rewrite Hrun.
Qed.


(** The runs of the scenarios do create a workspace: the tool succeeding,
    and the tool timing out. *)
Example ansible_run_creates_workspace :
  workspaces (snd (AnsibleLambda.lambda_handler
                     (Scenario.with_tool Scenario.tool_ok Scenario.playbooks)
                     Scenario.event_sit1 Scenario.st0))
  = [["tmp"; "ansible_exec_x1"]].
Proof. reflexivity. Qed.

Example deployment_timeout_creates_workspace :
  workspaces (snd (DeploymentLambda.lambda_handler
                     (Scenario.with_tool Scenario.tool_timeout Scenario.playbooks)
                     Scenario.event_sit1 Scenario.st0))
  = [["tmp"; "ansible_deploy_x1"]].
Proof. reflexivity. Qed.

(** ** Archives *)

Lemma str_append_assoc (a b c : string) : (a ++ b) ++ c = a ++ (b ++ c).
Proof. induction a as [|x a IH]; simpl; [reflexivity | now rewrite IH]. Qed.

Lemma str_rev_onto_app (s acc : string) : str_rev_onto s acc = str_rev s ++ acc.
Proof.
  unfold str_rev. revert acc. induction s as [|c r IH]; intros acc; simpl; [reflexivity|].
  rewrite (IH (String c acc)), (IH (String c EmptyString)), str_append_assoc.
  reflexivity.
Qed.

Lemma starts_with_app (x y : string) : starts_with x (x ++ y) = true.
Proof.
  induction x as [|c x IH]; simpl; [reflexivity|].
  now rewrite Ascii.eqb_refl, IH.
Qed.

Lemma str_contains_prefix (c s : string) : starts_with c s = true -> str_contains c s = true.
Proof. intros H. destruct s; simpl; now rewrite H. Qed.

Lemma str_contains_suffix (c u t : string) :
  str_contains c t = true -> str_contains c (u ++ t) = true.
Proof.
  intros H. induction u as [|a u IH]; simpl; [assumption|].
  rewrite IH. apply orb_true_r.
Qed.

(** Every piece [split] gives is a part of the text it splits. *)
Lemma split_onto_contains (sep : ascii) (s cur c : string) :
  In c (split_onto sep s cur) -> str_contains c (str_rev cur ++ s) = true.
Proof.
  revert cur. induction s as [|a r IH]; intros cur; simpl.
  - intros [<-|[]]. apply str_contains_prefix, starts_with_app.
  - destruct (Ascii.eqb a sep).
    + intros [<-|H].
      * apply str_contains_prefix, starts_with_app.
      * apply IH in H. simpl in H.
        apply (str_contains_suffix c (str_rev cur ++ String a EmptyString)) in H.
        now rewrite str_append_assoc in H.
    + intros H. apply IH in H.
      unfold str_rev in H. simpl in H. rewrite str_rev_onto_app, str_append_assoc in H.
      exact H.
Qed.

Lemma split_contains (sep : ascii) (s c : string) :
  In c (split sep s) -> str_contains c s = true.
Proof. intros H. now apply split_onto_contains in H. Qed.

Lemma climbs_out_has_dotdot (comps : list string) (depth : nat) :
  climbs_out depth comps = true -> In ".." comps.
Proof.
  revert depth. induction comps as [|c r IH]; intros depth; simpl; [discriminate|].
  destruct (String.eqb_spec c "..") as [->|_]; [now left|].
  destruct (String.eqb c "" || String.eqb c "."); intros H; right; eapply IH; eassumption.
Qed.

(** An entry of a name without [..] has no [..] component. *)
Lemma entry_components_no_dotdot (dropped : list string) (name : string) :
  str_contains ".." name = false -> ~ In ".." (entry_components dropped name).
Proof.
  intros H Hin. apply filter_In in Hin as [Hin _].
  apply split_contains in Hin. congruence.
Qed.

Lemma entry_components_dropped (dropped : list string) (name c : string) :
  In c dropped -> ~ In c (entry_components dropped name).
Proof.
  intros Hc Hin. apply filter_In in Hin as [_ Hin].
  apply negb_true_iff in Hin.
  assert (existsb (String.eqb c) dropped = true); [|congruence].
  apply existsb_exists. exists c. split; [assumption | apply String.eqb_refl].
Qed.

(** [shutil.unpack_archive] passes over an entry that would leave the
    target: nothing is written and nothing is raised. *)
Lemma unpack_entry_skips_escaping (E : platform) (dir : path) (e : zip_entry) (st : state) :
  escapes (zip_name e) = true -> unpack_entry E dir e st = (Ok tt, st).
Proof.
  unfold escapes, unpack_entry. intros H.
  destruct (starts_with "/" (zip_name e)); [reflexivity|]. simpl in H.
  apply climbs_out_has_dotdot, split_contains in H. rewrite H. reflexivity.
Qed.

Lemma files_within_refl (ok : path -> Prop) (f : filesystem) : files_within ok f f.
Proof. intros p d m H. now left. Qed.

Lemma files_within_trans (ok : path -> Prop) (f0 f1 f2 : filesystem) :
  files_within ok f0 f1 -> files_within ok f1 f2 -> files_within ok f0 f2.
Proof.
  intros H01 H12 p d m H. destruct (H12 p d m H) as [H1|Hok]; [|now right].
  now apply H01.
Qed.

Lemma files_within_mono (ok ok' : path -> Prop) (f0 f : filesystem) :
  (forall p, ok p -> ok' p) -> files_within ok f0 f -> files_within ok' f0 f.
Proof. intros Hsub H p d m Hin. destruct (H p d m Hin); auto. Qed.

Lemma files_within_put (ok : path -> Prop) (f : filesystem) (p : path) (n : node) :
  match n with File _ _ => ok p | Dir => True end ->
  files_within ok f (fs_put p n f).
Proof.
  intros Hn q d m [Heq|Hin].
  - injection Heq as -> ->. now right.
  - apply filter_In in Hin as [Hin _]. now left.
Qed.

Lemma files_within_makedirs (ok : path -> Prop) (qs : list path) (f f' : filesystem) :
  fs_makedirs qs f = Ok f' -> files_within ok f f'.
Proof.
  revert f. induction qs as [|q qs IH]; intros f; simpl.
  - intros H. injection H as <-. apply files_within_refl.
  - destruct (fs_lookup q f) as [[|d m]|]; [apply IH|discriminate|].
    intros H. apply IH in H. eapply files_within_trans; [|exact H].
    now apply files_within_put.
Qed.

Section WritesWithin.
Context {A B : Type} (ok : path -> Prop).

Lemma writes_ret (a : A) : writes_within ok (ret a).
Proof. intros st. apply files_within_refl. Qed.

Lemma writes_raise (e : exn) : writes_within ok (@raise A e).
Proof. intros st. apply files_within_refl. Qed.

Lemma writes_lift (r : result A) : writes_within ok (lift r).
Proof. intros st. apply files_within_refl. Qed.

Lemma writes_bind (m : M A) (k : A -> M B) :
  writes_within ok m -> (forall a, writes_within ok (k a)) -> writes_within ok (bind m k).
Proof.
  intros Hm Hk st. specialize (Hm st). unfold bind.
  destruct (m st) as [[a|e] st']; simpl in *; [|assumption].
  eapply files_within_trans; [exact Hm | apply Hk].
Qed.

Lemma writes_try_except (m : M A) (h : exn -> M A) :
  writes_within ok m -> (forall e, writes_within ok (h e)) ->
  writes_within ok (try_except m h).
Proof.
  intros Hm Hh st. specialize (Hm st). unfold try_except.
  destruct (m st) as [[a|e] st']; simpl in *; [assumption|].
  eapply files_within_trans; [exact Hm | apply Hh].
Qed.

End WritesWithin.

Lemma writes_get_state (ok : path -> Prop) : writes_within ok get_state.
Proof. intros st. apply files_within_refl. Qed.

Lemma writes_for_each {A} (ok : path -> Prop) (g : A -> M unit) (l : list A) :
  (forall a, writes_within ok (g a)) -> writes_within ok (for_each g l).
Proof.
  intros Hg. induction l as [|a l IH]; simpl.
  - apply writes_ret.
  - apply writes_bind; auto.
Qed.

Lemma writes_mono {A} (ok ok' : path -> Prop) (m : M A) :
  (forall p, ok p -> ok' p) -> writes_within ok m -> writes_within ok' m.
Proof. intros Hsub H st. eapply files_within_mono; [exact Hsub | apply H]. Qed.

Section WritesPrimitives.
Variable E : platform.
Variable ok : path -> Prop.

Lemma check_fault_writes op p : writes_within ok (check_fault E op p).
Proof.
  unfold check_fault. destruct (fault E op p); [apply writes_raise | apply writes_ret].
Qed.

Lemma write_text_writes p data : ok p -> writes_within ok (write_text E p data).
Proof.
  intros Hok st. unfold write_text, check_fault.
  destruct (fault E OpWrite p); run_monad; [apply files_within_refl|].
  destruct (negb (fs_isdir (dirname p) (fs st))); run_monad; [apply files_within_refl|].
  destruct (fs_lookup p (fs st)) as [[|d m]|]; run_monad; simpl;
    try apply files_within_refl; now apply files_within_put.
Qed.

Lemma makedirs_writes p : writes_within ok (makedirs E p).
Proof.
  intros st. unfold makedirs, check_fault.
  destruct (fault E OpMakedirs p); run_monad; [apply files_within_refl|].
  destruct (fs_makedirs (prefixes_from [] p) (fs st)) as [f|e] eqn:Hm; run_monad; simpl.
  - eapply files_within_makedirs; eassumption.
  - apply files_within_refl.
Qed.

Lemma mkdir_writes p : writes_within ok (mkdir E p).
Proof.
  intros st. unfold mkdir, check_fault.
  destruct (fault E OpMakedirs p); run_monad; [apply files_within_refl|].
  destruct (fs_exists p (fs st)); run_monad; [apply files_within_refl|].
  destruct (negb (fs_isdir (dirname p) (fs st))); run_monad; simpl;
    [apply files_within_refl | now apply files_within_put].
Qed.

End WritesPrimitives.

(** One step in showing where a computation writes. *)
Ltac writes_step :=
  lazymatch goal with
  | |- writes_within _ (bind _ _) => apply writes_bind; [|intro]
  | |- writes_within _ (ret _) => apply writes_ret
  | |- writes_within _ (raise _) => apply writes_raise
  | |- writes_within _ (lift _) => apply writes_lift
  | |- writes_within _ get_state => apply writes_get_state
  | |- writes_within _ (try_except _ _) => apply writes_try_except; [|intro]
  | |- writes_within _ (for_each _ _) => apply writes_for_each; intro
  | |- writes_within _ (makedirs _ _) => apply makedirs_writes
  | |- writes_within _ (mkdir _ _) => apply mkdir_writes
  | |- writes_within _ (check_fault _ _ _) => apply check_fault_writes
  | |- writes_within _ (if ?b then _ else _) => destruct b
  | |- writes_within _ (match ?x with _ => _ end) => destruct x
  end.

Ltac writes_tac := cbv zeta; repeat writes_step.

(** [shutil.unpack_archive] writes inside the directory it extracts to. *)
Lemma unpack_entry_writes (E : platform) (dir : path) (e : zip_entry) :
  writes_within (inside dir) (unpack_entry E dir e).
Proof.
  unfold unpack_entry.
  destruct (starts_with "/" (zip_name e) || str_contains ".." (zip_name e)) eqn:Hguard;
    [apply writes_ret|].
  apply orb_false_iff in Hguard as [_ Hdots].
  writes_tac. apply write_text_writes.
  eexists. split; [reflexivity | now apply entry_components_no_dotdot].
Qed.

Lemma unpack_archive_writes (E : platform) (file dir : path) :
  writes_within (inside dir) (unpack_archive E file dir).
Proof. unfold unpack_archive. writes_tac. apply unpack_entry_writes. Qed.

(** [ZipFile.extractall] writes inside the directory it extracts to. *)
Lemma extract_member_writes (E : platform) (dir : path) (e : zip_entry) :
  writes_within (inside dir) (extract_member E dir e).
Proof.
  unfold extract_member.
  assert (Hin : inside dir (path_app dir (entry_components [""; "."; ".."] (zip_name e)))).
  { eexists. split; [reflexivity|]. apply entry_components_dropped. simpl. tauto. }
  destruct (entry_components [""; "."; ".."] (zip_name e)) eqn:Hc;
    destruct (ends_with "/" (zip_name e)); writes_tac; now apply write_text_writes.
Qed.

Lemma extractall_writes (E : platform) (file dir : path) :
  writes_within (inside dir) (extractall E file dir).
Proof. unfold extractall. writes_tac. apply extract_member_writes. Qed.

Lemma writes_at_bind {A B} (ok : path -> Prop) (m : M A) (k : A -> M B) (st : state) :
  writes_at ok m st ->
  (forall a st', m st = (Ok a, st') -> writes_at ok (k a) st') ->
  writes_at ok (bind m k) st.
Proof.
  unfold writes_at, bind. intros Hm Hk.
  destruct (m st) as [[a|e] st']; simpl in *; [|assumption].
  eapply files_within_trans; [exact Hm | now apply Hk].
Qed.

Lemma writes_at_try_except {A} (ok : path -> Prop) (m : M A) (h : exn -> M A) (st : state) :
  writes_at ok m st -> (forall e, writes_within ok (h e)) -> writes_at ok (try_except m h) st.
Proof.
  unfold writes_at, try_except. intros Hm Hh.
  destruct (m st) as [[a|e] st']; simpl in *; [assumption|].
  eapply files_within_trans; [exact Hm | apply Hh].
Qed.

(** [ansible_lambda], the bundle unpacked from the archive: every file
    staging writes is inside the workspace. *)
Lemma copy_embedded_ansible_writes (E : platform) (wd : path) (st : state) :
  fs_isdir (path_join (base_dir E) "ansible") (fs st) = false ->
  writes_at (inside wd) (AnsibleLambda._copy_embedded_ansible E wd) st.
Proof.
  intros Hemb. unfold AnsibleLambda._copy_embedded_ansible. cbv zeta.
  apply writes_at_bind; [apply files_within_refl|].
  intros a st' Heq. injection Heq as <- <-. rewrite Hemb.
  apply (writes_mono (inside wd) (inside wd)); [auto|].
  writes_tac. apply unpack_archive_writes.
Qed.

(** [deployment_lambda]: every file staging writes is the downloaded
    package or is inside the [ansible] directory of the workspace. *)
Lemma download_ansible_package_writes (E : platform) (b k : value) (wd : path) (st : state) :
  deployer st = Some (Some wd) ->
  writes_at (fun p => p = path_join wd "ansible-package.zip" \/
                      inside (path_join wd "ansible") p)
    (DeploymentLambda.download_ansible_package E b k) st.
Proof.
  intros Hdep. unfold DeploymentLambda.download_ansible_package.
  apply writes_at_try_except; [|intros e; apply writes_raise].
  apply writes_at_bind.
  { unfold writes_at, DeploymentLambda.self_work_dir. run_monad.
    destruct (deployer st); apply files_within_refl. }
  intros a st' Heq. unfold DeploymentLambda.self_work_dir in Heq. run_monad_in Heq.
  rewrite Hdep in Heq. injection Heq as <- <-.
  match goal with |- writes_at ?ok ?m st => change (files_within ok (fs st) (fs (snd (m st))));
    assert (Hw : writes_within ok m); [|apply Hw] end.
  writes_tac.
  - apply write_text_writes. now left.
  - eapply writes_mono; [|apply extractall_writes]. intros p Hp. now right.
Qed.




(** ** Validation *)

(** C6, as stated, fails: the event [{jar_timestamp: t1, site: null}]
    lacks [service_name], and both handlers answer it 500, for the site
    is put in lower or upper case before the required fields are looked
    at. *)
Lemma null_site_is_answered_500 :
  missing_required [("jar_timestamp", VStr "t1"); ("site", VNone)] /\
  fst (AnsibleLambda.lambda_handler
         (Scenario.with_tool Scenario.tool_ok Scenario.playbooks)
         Scenario.event_null_site Scenario.st0)
  = Ok (mkResponse 500 [("error", VStr "'NoneType' object has no attribute 'lower'")]) /\
  fst (DeploymentLambda.lambda_handler
         (Scenario.with_tool Scenario.tool_ok Scenario.playbooks)
         Scenario.event_null_site Scenario.st0)
  = Ok (mkResponse 500 [("error", VStr "'NoneType' object has no attribute 'upper'");
                        ("message", VStr "Lambda deployment failed")]).
Proof. split; [now left | split; reflexivity]. Qed.

(** C6, amended.  When the body of the event is a JSON object whose
    [site] is absent or a string, and [service_name] or [jar_timestamp]
    is missing from it, either handler answers 400 with an error message,
    and the secret store has not been queried. *)
Theorem missing_field_is_answered_400 (E : platform) (event : value)
    (d : list (string * value)) (st : state) :
  missing_required d ->
  site_is_text d ->
  (AnsibleLambda.event_body E event = Ok (VDict d) ->
   exists r, AnsibleLambda.lambda_handler E event st = (Ok r, st) /\
             statusCode r = 400%Z /\ has_key "error" (body r) = true) /\
  (DeploymentLambda.event_body E event = Ok (VDict d) ->
   exists r st', DeploymentLambda.lambda_handler E event st = (Ok r, st') /\
                 statusCode r = 400%Z /\ has_key "error" (body r) = true /\
                 secret_calls st' = secret_calls st).
Proof.
  intros Hmiss Hsite.
  assert (Hlower : exists s, (site_v <- py_get_default (VDict d) "site" (VStr "sit1") ;;
                              py_lower site_v)%res = Ok s).
  { unfold py_get_default. destruct Hsite as [->|[s ->]]; simpl; eauto. }
  assert (Hupper : exists s, (site_v <- py_get_default (VDict d) "site" (VStr "sit1") ;;
                              py_upper site_v)%res = Ok s).
  { unfold py_get_default. destruct Hsite as [->|[s ->]]; simpl; eauto. }
  assert (Hfalsy : truthy match assoc "service_name" d with Some v => v | None => VNone end
                   && truthy match assoc "jar_timestamp" d with Some v => v | None => VNone end
                   = false).
  { destruct Hmiss as [->| ->]; simpl; [reflexivity | apply andb_false_r]. }
  split; intros Hbody.
  - destruct Hlower as [s Hs].
    unfold AnsibleLambda.lambda_handler, AnsibleLambda.read_request.
    rewrite Hbody. unfold rbind at 1. unfold py_get. unfold py_get_default at 1 2.
    unfold rbind at 1 2. unfold rbind at 1 in Hs. 
    destruct (py_get_default (VDict d) "site" (VStr "sit1")) as [site_v|e]; [|discriminate].
    unfold rbind at 1. rewrite Hs. unfold rbind, py_get_default. run_monad.
    cbn [AnsibleLambda.req_service_name AnsibleLambda.req_jar_timestamp].
    rewrite <- negb_andb, Hfalsy. cbn [negb]. eexists. split; [reflexivity|]. now split.
  - destruct Hupper as [s Hs].
    unfold DeploymentLambda.lambda_handler, DeploymentLambda.read_request.
    rewrite Hbody. unfold rbind at 1. unfold py_get. unfold py_get_default at 1 2.
    unfold rbind at 1 2. unfold rbind at 1 in Hs.
    destruct (py_get_default (VDict d) "site" (VStr "sit1")) as [site_v|e]; [|discriminate].
    unfold rbind at 1. rewrite Hs. unfold rbind, py_get_default. run_monad.
    cbn [DeploymentLambda.req_service_name DeploymentLambda.req_jar_timestamp
         DeploymentLambda.req_artifacts_s3_bucket DeploymentLambda.req_ansible_s3_bucket
         forallb].
    rewrite andb_assoc, Hfalsy. cbn [andb negb deployer set_deployer].
    eexists _, _. split; [reflexivity|]. repeat split.
Qed.

Lemma missing_field_is_answered_400_witness :
  exists r,
    AnsibleLambda.lambda_handler (Scenario.with_tool Scenario.tool_ok Scenario.playbooks)
      Scenario.event_no_service Scenario.st0 = (Ok r, Scenario.st0) /\
    statusCode r = 400%Z /\ has_key "error" (body r) = true.
Proof.
  apply (missing_field_is_answered_400
           (Scenario.with_tool Scenario.tool_ok Scenario.playbooks)
           Scenario.event_no_service [("jar_timestamp", VStr "t1")] Scenario.st0).
  - left. reflexivity.
  - left. reflexivity.
  - reflexivity.
Defined.

(** ** The case of the site *)

Lemma ascii_lower_idem (a : ascii) : ascii_lower (ascii_lower a) = ascii_lower a.
Proof. destruct a as [[] [] [] [] [] [] [] []]; reflexivity. Qed.

Lemma ascii_upper_lower (a : ascii) : ascii_upper (ascii_lower a) = ascii_upper a.
Proof. destruct a as [[] [] [] [] [] [] [] []]; reflexivity. Qed.

Lemma case_swap_lower (a b : ascii) : case_swap a b -> ascii_lower a = ascii_lower b.
Proof.
  intros [->|[[_ ->]|[_ ->]]]; [reflexivity | |]; now rewrite ascii_lower_idem.
Qed.

Lemma case_swap_upper (a b : ascii) : case_swap a b -> ascii_upper a = ascii_upper b.
Proof.
  intros [->|[[_ ->]|[_ ->]]]; [reflexivity | |]; now rewrite ascii_upper_lower.
Qed.

Lemma case_variant_lower (s t : string) : case_variant s t -> str_lower s = str_lower t.
Proof.
  induction 1 as [|a b s t Hab _ IH]; [reflexivity|].
  unfold str_lower in *. simpl. now rewrite IH, (case_swap_lower a b Hab).
Qed.

Lemma case_variant_upper (s t : string) : case_variant s t -> str_upper s = str_upper t.
Proof.
  induction 1 as [|a b s t Hab _ IH]; [reflexivity|].
  unfold str_upper in *. simpl. now rewrite IH, (case_swap_upper a b Hab).
Qed.

(** Outside [site] the two events have the same entries. *)
Lemma assoc_field_variant (d1 d2 : list (string * value)) (k : string) :
  Forall2 field_variant d1 d2 -> k <> "site" -> assoc k d1 = assoc k d2.
Proof.
  intros H Hk. induction H as [|[k1 v1] [k2 v2] d1 d2 [Hkey Hval] _ IH]; [reflexivity|].
  simpl in *. subst k2. destruct (String.eqb_spec k k1) as [->|_]; [|assumption].
  destruct Hval as [->|[-> _]]; [reflexivity | contradiction].
Qed.

(** Under [site] they have the same value or two case variants of a text. *)
Lemma assoc_site_variant (d1 d2 : list (string * value)) :
  Forall2 field_variant d1 d2 ->
  assoc "site" d1 = assoc "site" d2 \/
  exists s t, assoc "site" d1 = Some (VStr s) /\ assoc "site" d2 = Some (VStr t) /\
              case_variant s t.
Proof.
  intros H. induction H as [|[k1 v1] [k2 v2] d1 d2 [Hkey Hval] _ IH]; [now left|].
  cbn [assoc fst snd] in *. subst k2. destruct (String.eqb "site" k1); [|assumption].
  destruct Hval as [->|[_ (s & t & -> & -> & Hst)]]; [now left|].
  right. now exists s, t.
Qed.

(** What the handlers read from two such events is the same request. *)
Lemma ansible_read_request_variant (E : platform) (e1 e2 : value) :
  differ_only_in_site_case e1 e2 ->
  AnsibleLambda.read_request E e1 = AnsibleLambda.read_request E e2.
Proof.
  intros (d1 & d2 & -> & -> & H).
  unfold AnsibleLambda.read_request, AnsibleLambda.event_body.
  rewrite (assoc_field_variant d1 d2 "body" H) by discriminate.
  destruct (assoc "body" d2); [reflexivity|].
  cbn [rbind py_get py_get_default].
  rewrite (assoc_field_variant d1 d2 "service_name" H) by discriminate.
  rewrite (assoc_field_variant d1 d2 "jar_timestamp" H) by discriminate.
  rewrite (assoc_field_variant d1 d2 "app_user" H) by discriminate.
  destruct (assoc_site_variant d1 d2 H) as [->|(s & t & -> & -> & Hst)]; [reflexivity|].
  cbn [py_lower rbind]. now rewrite (case_variant_lower s t Hst).
Qed.

Lemma deployment_read_request_variant (E : platform) (e1 e2 : value) :
  differ_only_in_site_case e1 e2 ->
  DeploymentLambda.read_request E e1 = DeploymentLambda.read_request E e2.
Proof.
  intros (d1 & d2 & -> & -> & H).
  unfold DeploymentLambda.read_request, DeploymentLambda.event_body.
  rewrite (assoc_field_variant d1 d2 "body" H) by discriminate.
  destruct (assoc "body" d2) as [[]|]; try reflexivity;
    cbn [rbind py_get py_get_default];
    rewrite (assoc_field_variant d1 d2 "service_name" H) by discriminate;
    rewrite (assoc_field_variant d1 d2 "jar_timestamp" H) by discriminate;
    rewrite (assoc_field_variant d1 d2 "app_user" H) by discriminate;
    rewrite (assoc_field_variant d1 d2 "ansible_s3_bucket" H) by discriminate;
    rewrite (assoc_field_variant d1 d2 "ansible_s3_key" H) by discriminate;
    rewrite (assoc_field_variant d1 d2 "artifacts_s3_bucket" H) by discriminate;
    (destruct (assoc_site_variant d1 d2 H) as [->|(s & t & -> & -> & Hst)]; [reflexivity|]);
    cbn [py_upper rbind]; now rewrite (case_variant_upper s t Hst).
Qed.


Lemma sit1_SIT1_differ_only_in_case :
  differ_only_in_site_case Scenario.event_sit1 Scenario.event_SIT1.
Proof.
  exists [("service_name", VStr "svc1"); ("jar_timestamp", VStr "t1"); ("site", VStr "sit1")],
         [("service_name", VStr "svc1"); ("jar_timestamp", VStr "t1"); ("site", VStr "SIT1")].
  split; [reflexivity | split; [reflexivity|]].
  constructor; [split; [reflexivity | left; reflexivity]|].
  constructor; [split; [reflexivity | left; reflexivity]|].
  constructor; [|constructor].
  split; [reflexivity | right; split; [reflexivity|]].
  exists "sit1", "SIT1". split; [reflexivity | split; [reflexivity|]].
  do 3 (apply cv_char; [right; right; split; reflexivity|]).
  apply cv_char; [left; reflexivity | apply cv_empty].
Defined.


(** The identifiers of the two runs, which the site's case did not change. *)
Example identifiers_of_SIT1 :
  secret_calls (snd (AnsibleLambda.lambda_handler
                       (Scenario.with_tool Scenario.tool_ok Scenario.playbooks)
                       Scenario.event_SIT1 Scenario.st0))
  = ["demoapp/vm/ssh-key"; "demoapp/vm/sit1"] /\
  secret_calls (snd (DeploymentLambda.lambda_handler
                       (Scenario.with_tool Scenario.tool_ok Scenario.playbooks)
                       Scenario.event_SIT1 Scenario.st0))
  = ["/demoapp/vm/sit1/db_password"; "/demoapp/vm/sit1/db_username";
     "/demoapp/vm/sit1/datasource_url"; "/demoapp/vm/ssh-key";
     "/demoapp/vm/sit1/username"; "/demoapp/vm/sit1/hostname"].
Proof. split; reflexivity. Qed.

(** ** Secrets and the key file *)

Lemma path_eqb_refl (p : path) : path_eqb p p = true.
Proof. induction p as [|a p IH]; simpl; [reflexivity | now rewrite String.eqb_refl]. Qed.

Lemma fs_lookup_put (p : path) (n : node) (f : filesystem) :
  fs_lookup p (fs_put p n f) = Some n.
Proof. unfold fs_put. simpl. now rewrite path_eqb_refl. Qed.

Lemma bind_ok {A B} (m : M A) (k : A -> M B) (st st' : state) (b : B) :
  bind m k st = (Ok b, st') ->
  exists a st1, m st = (Ok a, st1) /\ k a st1 = (Ok b, st').
Proof.
  unfold bind. destruct (m st) as [[a|e] st1]; [|discriminate].
  intros H. now exists a, st1.
Qed.

(** After a write that succeeded the file holds the text written. *)
Lemma write_text_result (E : platform) (p : path) (data : string) (st st' : state) :
  write_text E p data st = (Ok tt, st') ->
  exists m, fs_lookup p (fs st') = Some (File data m).
Proof.
  unfold write_text, check_fault.
  destruct (fault E OpWrite p); run_monad; [discriminate|].
  destruct (negb (fs_isdir (dirname p) (fs st))); run_monad; [discriminate|].
  destruct (fs_lookup p (fs st)) as [[|d m]|]; run_monad; [discriminate| |];
    intros H; injection H as <-; eexists; apply fs_lookup_put.
Qed.

(** After a [chmod] that succeeded the file has the mode given. *)
Lemma chmod_result (E : platform) (p : path) (mode : Z) (st st' : state) (d : string) (m : Z) :
  fs_lookup p (fs st) = Some (File d m) ->
  chmod E p mode st = (Ok tt, st') ->
  fs_lookup p (fs st') = Some (File d mode).
Proof.
  intros Hl. unfold chmod, check_fault.
  destruct (fault E OpChmod p); run_monad; [discriminate|].
  rewrite Hl. run_monad. intros H. injection H as <-. apply fs_lookup_put.
Qed.

(** [deployment_lambda]: the key file is [~/.ssh/id_rsa], whatever the
    workspace, and holds the content decoded when it decodes. *)
Lemma setup_ssh_key_result (E : platform) (content : string) (st st' : state) (p : path) :
  DeploymentLambda.setup_ssh_key E content st = (Ok p, st') ->
  p = path_join (path_join (home_dir E) ".ssh") "id_rsa" /\
  fs_lookup p (fs st')
  = Some (File (DeploymentLambda.decoded_or_same E content) owner_only_mode).
Proof.
  unfold DeploymentLambda.setup_ssh_key. cbv zeta. intros H.
  apply bind_ok in H as ([] & st1 & _ & H).
  apply bind_ok in H as ([] & st2 & Hw & H).
  apply bind_ok in H as ([] & st3 & Hc & H).
  injection H as <- <-. split; [reflexivity|].
  apply write_text_result in Hw as [m Hw]. eapply chmod_result; eassumption.
Qed.

Lemma is_prefix_join (p : path) (c : string) : is_prefix p (path_join p c) = true.
Proof.
  unfold path_join. induction p as [|a p IH]; simpl; [reflexivity|].
  rewrite String.eqb_refl. exact IH.
Qed.

(** [ansible_lambda]: the key file is [id_rsa] in the workspace. *)
Lemma write_ssh_key_result (E : platform) (wd : path) (id : string) (st st' : state) (p : path) :
  AnsibleLambda._write_ssh_key E wd id st = (Ok p, st') ->
  p = path_join wd "id_rsa" /\ is_prefix wd p = true /\
  exists key, fs_lookup p (fs st') = Some (File (strip key ++ nl) owner_only_mode).
Proof.
  unfold AnsibleLambda._write_ssh_key. cbv zeta. intros H.
  apply bind_ok in H as (secret & st1 & _ & H).
  apply bind_ok in H as (key & st2 & _ & H).
  apply bind_ok in H as ([] & st3 & Hw & H).
  apply bind_ok in H as ([] & st4 & Hc & H).
  injection H as <- <-. split; [reflexivity|]. split.
  - apply is_prefix_join.
  - exists key. apply write_text_result in Hw as [m Hw]. eapply chmod_result; eassumption.
Qed.

(** C3, on [deployment_lambda].  In the run of the scenario the key is
    written to [/home/sbx/.ssh/id_rsa], which is not in the workspace
    [/tmp/ansible_deploy_x1]: when the handler is done the workspace is
    gone and the key file is still there. *)
Theorem deployment_key_outlives_workspace :
  let st' := snd (DeploymentLambda.lambda_handler
                    (Scenario.with_tool Scenario.tool_ok Scenario.playbooks)
                    Scenario.event_sit1 Scenario.st0) in
  workspaces st' = [["tmp"; "ansible_deploy_x1"]] /\
  fs_exists ["tmp"; "ansible_deploy_x1"] (fs st') = false /\
  is_prefix ["tmp"; "ansible_deploy_x1"] ["home"; "sbx"; ".ssh"; "id_rsa"] = false /\
  fs_lookup ["home"; "sbx"; ".ssh"; "id_rsa"] (fs st')
  = Some (File Scenario.key_text owner_only_mode).
Proof. repeat split; reflexivity. Qed.

(** [ansible_lambda] in the same scenario: the files after the run are
    the files before it. *)
Example ansible_run_leaves_no_key :
  fs (snd (AnsibleLambda.lambda_handler
             (Scenario.with_tool Scenario.tool_ok Scenario.playbooks)
             Scenario.event_sit1 Scenario.st0))
  = Scenario.fs0.
Proof. reflexivity. Qed.

(** C7, as stated, fails: [deployment_lambda] is given the key as text by
    the parameter store, and a text that is well-formed base64 is decoded:
    the key file holds [hello], not the text [aGVsbG8=] it was given. *)
Lemma text_key_is_decoded :
  Scenario.text_key = "aGVsbG8=" /\
  fs_lookup ["home"; "sbx"; ".ssh"; "id_rsa"]
    (fs (snd (DeploymentLambda.setup_ssh_key
                (Scenario.with_tool Scenario.tool_ok Scenario.playbooks)
                Scenario.text_key Scenario.st0)))
  = Some (File "hello" owner_only_mode).
Proof. split; reflexivity. Qed.

(** C7, amended.  [ansible_lambda] takes a secret given as text as it is
    (for the key: when the text is not empty) and decodes base64 only what
    comes as [SecretBinary].  [deployment_lambda] tries base64 and UTF-8
    on the key text it is given: the key file holds the decoded text when
    both succeed, and the text itself when either raises; the decoding is
    done once. *)
Theorem secret_decoding (E : platform) (id s content : string) (b : option string)
    (st st' : state) (p : path) :
  secretsmanager E id = Ok (mkSecret (Some s) b) ->
  s <> "" ->
  DeploymentLambda.setup_ssh_key E content st = (Ok p, st') ->
  fst (AnsibleLambda._get_json_secret E id st) = json_loads E (VStr s) /\
  AnsibleLambda.key_material_of E (mkSecret (Some s) b) = Ok s /\
  (forall bin, AnsibleLambda.key_material_of E (mkSecret None (Some bin))
               = (raw <- b64decode_bytes bin ;; bytes_decode E raw)%res) /\
  fs_lookup p (fs st')
  = Some (File (DeploymentLambda.decoded_or_same E content) owner_only_mode) /\
  (forall raw text, b64decode_str content = Ok raw -> utf8_decode E raw = Some text ->
                    DeploymentLambda.decoded_or_same E content = text) /\
  ((forall raw, b64decode_str content = Ok raw -> utf8_decode E raw = None) ->
   DeploymentLambda.decoded_or_same E content = content).
Proof.
  intros Hsecret Hs Hsetup. repeat split.
  - unfold AnsibleLambda._get_json_secret, get_secret_value. run_monad.
    rewrite Hsecret. reflexivity.
  - unfold AnsibleLambda.key_material_of. simpl.
    destruct (String.eqb_spec s ""); [contradiction | reflexivity].
  - now apply setup_ssh_key_result in Hsetup.
  - intros raw text Hraw Htext. unfold DeploymentLambda.decoded_or_same, bytes_decode.
    rewrite Hraw. simpl. now rewrite Htext.
  - intros Hnone. unfold DeploymentLambda.decoded_or_same, bytes_decode.
    destruct (b64decode_str content) as [raw|e]; [|reflexivity]. simpl.
    now rewrite (Hnone raw eq_refl).
Qed.

Lemma secret_decoding_witness :
  fs_lookup ["home"; "sbx"; ".ssh"; "id_rsa"]
    (fs (snd (DeploymentLambda.setup_ssh_key
                (Scenario.with_tool Scenario.tool_ok Scenario.playbooks)
                Scenario.key_text Scenario.st0)))
  = Some (File (DeploymentLambda.decoded_or_same
                  (Scenario.with_tool Scenario.tool_ok Scenario.playbooks)
                  Scenario.key_text) owner_only_mode).
Proof.
  apply (secret_decoding (Scenario.with_tool Scenario.tool_ok Scenario.playbooks)
           "demoapp/vm/ssh-key" Scenario.key_text Scenario.key_text None
           Scenario.st0).
  - reflexivity.
  - discriminate.
  - reflexivity.
Defined.

(** * Further properties *)

(** ** What a run leaves in the file system *)

Lemma is_prefix_app (p q : path) : is_prefix p (path_app p q) = true.
Proof.
  unfold path_app. induction p as [|a p IH]; simpl; [reflexivity|].
  rewrite String.eqb_refl. exact IH.
Qed.

Lemma is_prefix_trans (p q r : path) :
  is_prefix p q = true -> is_prefix q r = true -> is_prefix p r = true.
Proof.
  revert q r. induction p as [|a p IH]; intros [|b q] [|c r]; simpl; try easy.
  intros H1 H2. apply andb_true_iff in H1 as [Hab H1]. apply andb_true_iff in H2 as [Hbc H2].
  apply String.eqb_eq in Hab, Hbc. subst. rewrite String.eqb_refl. simpl. eauto.
Qed.

Lemma inside_under (wd p : path) : inside wd p -> under wd p.
Proof. intros (rest & -> & _). apply is_prefix_app. Qed.

Lemma under_join (wd : path) (c : string) (p : path) :
  under (path_join wd c) p -> under wd p.
Proof. unfold under. apply is_prefix_trans, is_prefix_join. Qed.

Lemma writes_modify_keeping_fs (ok : path -> Prop) (g : state -> state) :
  (forall st, fs (g st) = fs st) -> writes_within ok (modify g).
Proof. intros Hg st. simpl. rewrite Hg. apply files_within_refl. Qed.

Section WritesMore.
Variable E : platform.
Variable ok : path -> Prop.

Lemma chmod_writes p mode : ok p -> writes_within ok (chmod E p mode).
Proof.
  intros Hok st. unfold chmod, check_fault.
  destruct (fault E OpChmod p); run_monad; [apply files_within_refl|].
  destruct (fs_lookup p (fs st)) as [[|d m]|]; run_monad; simpl;
    try apply files_within_refl; now apply files_within_put.
Qed.

Lemma get_secret_value_writes id : writes_within ok (get_secret_value E id).
Proof.
  unfold get_secret_value. apply writes_bind; [|intro; apply writes_lift].
  now apply writes_modify_keeping_fs.
Qed.

Lemma ssm_get_parameter_writes name d : writes_within ok (ssm_get_parameter E name d).
Proof.
  unfold ssm_get_parameter. apply writes_bind; [|intro; apply writes_lift].
  now apply writes_modify_keeping_fs.
Qed.

Lemma getcwd_writes : writes_within ok (getcwd E).
Proof. unfold getcwd. writes_tac. Qed.

Lemma chdir_writes p : writes_within ok (chdir E p).
Proof. unfold chdir. writes_tac. now apply writes_modify_keeping_fs. Qed.

End WritesMore.

(** [shutil.copytree] writes below its destination. *)
Lemma copytree_writes (E : platform) (src dst : path) :
  writes_within (under dst) (copytree E src dst).
Proof.
  intros st. unfold copytree, check_fault.
  destruct (fault E OpCopytree dst); run_monad; [apply files_within_refl|].
  destruct (negb (fs_isdir src (fs st))); run_monad; [apply files_within_refl|].
  destruct (fs_exists dst (fs st)); run_monad; [apply files_within_refl|].
  cbn [fs set_fs].
  intros p d m Hin. apply in_app_or in Hin as [Hin|Hin]; [right | now left].
  unfold copied_entries in Hin. destruct Hin as [Heq|Hin]; [discriminate|].
  apply in_map_iff in Hin as ([q n] & Heq & _). injection Heq as <- _.
  apply is_prefix_app.
Qed.

(** [ansible_lambda]: the stager writes below the workspace and returns
    the [ansible] directory of the workspace. *)
Lemma copy_embedded_ansible_under (E : platform) (wd : path) :
  writes_within (under wd) (AnsibleLambda._copy_embedded_ansible E wd).
Proof.
  unfold AnsibleLambda._copy_embedded_ansible. writes_tac.
  - eapply writes_mono; [|apply copytree_writes]. intros p. apply under_join.
  - eapply writes_mono; [|apply unpack_archive_writes]. intros p. apply inside_under.
Qed.

Lemma copy_embedded_ansible_value (E : platform) (wd a : path) (st st' : state) :
  AnsibleLambda._copy_embedded_ansible E wd st = (Ok a, st') -> a = path_join wd "ansible".
Proof.
  unfold AnsibleLambda._copy_embedded_ansible. cbv zeta. run_monad.
  destruct (fs_isdir _ (fs st)).
  - destruct (copytree E _ _ st) as [[[]|e] st1]; [|discriminate]. now intros [= <- _].
  - destruct (fs_isfile _ (fs st)); [|discriminate].
    destruct (unpack_archive E _ wd st) as [[[]|e] st1]; [|discriminate].
    destruct (negb _); [discriminate|]. now intros [= <- _].
Qed.

Lemma write_ssh_key_under (E : platform) (wd : path) (id : string) :
  writes_within (under wd) (AnsibleLambda._write_ssh_key E wd id).
Proof.
  unfold AnsibleLambda._write_ssh_key. writes_tac.
  - apply get_secret_value_writes.
  - apply write_text_writes, is_prefix_join.
  - apply chmod_writes, is_prefix_join.
Qed.

Lemma create_inventory_under (E : platform) (wd : path) (h u : value) (site : string) :
  writes_within (under wd)
    (AnsibleLambda._create_inventory E (path_join wd "ansible") h u site).
Proof.
  unfold AnsibleLambda._create_inventory. writes_tac.
  apply write_text_writes. eapply under_join, is_prefix_join.
Qed.

Lemma run_playbook_writes (E : platform) (ok : path -> Prop) dir extra key :
  writes_within ok (AnsibleLambda._run_playbook E dir extra key).
Proof. unfold AnsibleLambda._run_playbook. writes_tac. Qed.

Lemma get_json_secret_writes (E : platform) (ok : path -> Prop) id :
  writes_within ok (AnsibleLambda._get_json_secret E id).
Proof.
  unfold AnsibleLambda._get_json_secret. writes_tac; apply get_secret_value_writes.
Qed.

Lemma hoare_writes {A} (ok : path -> Prop) (f0 : filesystem) (m : M A) :
  writes_within ok m ->
  hoare (files_of_state ok f0) m (fun _ => files_of_state ok f0) (files_of_state ok f0).
Proof.
  intros Hw st H. specialize (Hw st). unfold files_of_state in *.
  destruct (m st) as [[a|e] st']; simpl in Hw; eapply files_within_trans; eassumption.
Qed.

(** The same, with what is known of the value returned. *)
Lemma hoare_writes_value {A} (ok : path -> Prop) (f0 : filesystem) (m : M A)
    (V : A -> Prop) :
  writes_within ok m ->
  (forall st a st', m st = (Ok a, st') -> V a) ->
  hoare (files_of_state ok f0) m (fun a st => V a /\ files_of_state ok f0 st)
    (files_of_state ok f0).
Proof.
  intros Hw Hv st H. specialize (Hw st). specialize (Hv st). unfold files_of_state in *.
  destruct (m st) as [[a|e] st']; simpl in Hw.
  - split; [now apply (Hv a st') | eapply files_within_trans; eassumption].
  - eapply files_within_trans; eassumption.
Qed.

Lemma mkdtemp_writes (E : platform) (ok : path -> Prop) (prefix : string) :
  writes_within ok (mkdtemp E prefix).
Proof.
  intros st. unfold mkdtemp. destruct (tempfile_mkdtemp E prefix) as [p|e];
    run_monad; simpl; [now apply files_within_put | apply files_within_refl].
Qed.

(** Removing the tree removes every file written below it. *)
Lemma files_within_remove_tree (wd : path) (f0 f : filesystem) :
  files_within (under wd) f0 f -> files_within nowhere f0 (fs_remove_tree wd f).
Proof.
  intros H p d m Hin. apply filter_In in Hin as [Hin Hp]. simpl in Hp.
  destruct (H p d m Hin) as [H0|Hu]; [now left|].
  unfold under in Hu. rewrite Hu in Hp. discriminate.
Qed.

Lemma rmtree_files (wd : path) (f0 : filesystem) :
  hoare (files_of_state (under wd) f0) (rmtree wd true)
    (fun _ => files_of_state nowhere f0) (files_of_state nowhere f0).
Proof.
  intros st H. unfold rmtree. run_monad. simpl. unfold files_of_state. simpl.
  now apply files_within_remove_tree.
Qed.

Lemma files_of_state_mono (ok ok' : path -> Prop) (f0 : filesystem) (st : state) :
  (forall p, ok p -> ok' p) -> files_of_state ok f0 st -> files_of_state ok' f0 st.
Proof. unfold files_of_state. apply files_within_mono. Qed.

(** A fact that does not depend on the state may be taken out of the
    precondition. *)
Lemma hoare_pure {A} (V : Prop) (P : state -> Prop) (m : M A) Q Qe :
  (V -> hoare P m Q Qe) -> hoare (fun st => V /\ P st) m Q Qe.
Proof. intros H st [Hv HP]. now apply H. Qed.

(** A step that writes only at paths in [ok], followed by the rest. *)
Ltac step_writes ok f0 x :=
  apply hoare_bind with (R := fun _ => files_of_state ok f0);
  [ apply hoare_writes | intro x ].

Lemma ansible_handler_files (E : platform) (event : value) (f0 : filesystem) :
  hoare (files_of_state nowhere f0) (AnsibleLambda.lambda_handler E event)
    (fun _ => files_of_state nowhere f0) (files_of_state nowhere f0).
Proof.
  unfold AnsibleLambda.lambda_handler.
  apply hoare_try_except with (R := files_of_state nowhere f0).
  2:{ intros e. apply hoare_ret. auto. }
  step_writes nowhere f0 req; [apply writes_lift|].
  match goal with |- hoare _ (if ?b then _ else _) _ _ => destruct b end;
    [apply hoare_ret; auto|]. cbv zeta.
  step_writes nowhere f0 vm_data; [apply get_json_secret_writes|].
  step_writes nowhere f0 vm_host; [apply writes_lift|].
  step_writes nowhere f0 vm_user; [apply writes_lift|].
  step_writes nowhere f0 datasource_url; [apply writes_lift|].
  step_writes nowhere f0 db_username; [apply writes_lift|].
  step_writes nowhere f0 db_password; [apply writes_lift|].
  step_writes nowhere f0 wd; [apply mkdtemp_writes|].
  eapply hoare_conseq with (P' := files_of_state (under wd) f0);
    [apply hoare_try_finally with (R := files_of_state (under wd) f0);
       [|apply rmtree_files]
    | intros st H; eapply files_of_state_mono; [|exact H]; intros p []
    | auto | auto].
  apply hoare_bind with
    (R := fun a st => a = path_join wd "ansible" /\ files_of_state (under wd) f0 st).
  { apply hoare_writes_value; [apply copy_embedded_ansible_under|].
    intros st a st'. apply copy_embedded_ansible_value. }
  intros ansible_dir. apply hoare_pure. intros ->.
  apply hoare_writes. writes_tac.
  - apply write_ssh_key_under.
  - apply create_inventory_under.
  - apply run_playbook_writes.
Qed.


(** *** Nothing but the workspace is removed *)

Lemma path_eqb_eq (p q : path) : path_eqb p q = true -> p = q.
Proof.
  revert q. induction p as [|a p IH]; intros [|b q]; simpl; try easy.
  intros H. apply andb_true_iff in H as [Hab H]. apply String.eqb_eq in Hab.
  f_equal; auto.
Qed.

Lemma fs_lookup_put_other (p q : path) (n : node) (f : filesystem) :
  path_eqb q p = false -> fs_lookup q (fs_put p n f) = fs_lookup q f.
Proof.
  intros Hqp. unfold fs_put. simpl. rewrite Hqp.
  induction f as [|[r m] f IH]; [reflexivity|]. simpl.
  destruct (path_eqb p r) eqn:Hpr; simpl.
  - apply path_eqb_eq in Hpr. subst r. now rewrite Hqp.
  - now rewrite IH.
Qed.

Lemma fs_exists_put (p q : path) (n : node) (f : filesystem) :
  fs_exists q f = true -> fs_exists q (fs_put p n f) = true.
Proof.
  unfold fs_exists. destruct (path_eqb q p) eqn:Hqp.
  - apply path_eqb_eq in Hqp. subst q. now rewrite fs_lookup_put.
  - now rewrite fs_lookup_put_other.
Qed.

Lemma fs_exists_makedirs (qs : list path) (f f' : filesystem) (q : path) :
  fs_makedirs qs f = Ok f' -> fs_exists q f = true -> fs_exists q f' = true.
Proof.
  revert f. induction qs as [|r qs IH]; intros f; simpl.
  - now intros [= <-].
  - destruct (fs_lookup r f) as [[|d m]|]; [apply IH|discriminate|].
    intros H Hq. eapply IH; [exact H|]. now apply fs_exists_put.
Qed.

Section Grows.
Context {A B : Type}.

Lemma grows_ret (a : A) : grows (ret a).
Proof. intros st q H. exact H. Qed.

Lemma grows_raise (e : exn) : grows (@raise A e).
Proof. intros st q H. exact H. Qed.

Lemma grows_lift (r : result A) : grows (lift r).
Proof. intros st q H. exact H. Qed.

Lemma grows_bind (m : M A) (k : A -> M B) :
  grows m -> (forall a, grows (k a)) -> grows (bind m k).
Proof.
  intros Hm Hk st q H. specialize (Hm st q H). unfold bind.
  destruct (m st) as [[a|e] st']; simpl in *; [now apply Hk | assumption].
Qed.

Lemma grows_try_except (m : M A) (h : exn -> M A) :
  grows m -> (forall e, grows (h e)) -> grows (try_except m h).
Proof.
  intros Hm Hh st q H. specialize (Hm st q H). unfold try_except.
  destruct (m st) as [[a|e] st']; simpl in *; [assumption | now apply Hh].
Qed.

End Grows.

Lemma grows_get_state : grows get_state.
Proof. intros st q H. exact H. Qed.

Lemma grows_for_each {A} (g : A -> M unit) (l : list A) :
  (forall a, grows (g a)) -> grows (for_each g l).
Proof.
  intros Hg. induction l as [|a l IH]; simpl; [apply grows_ret|].
  apply grows_bind; auto.
Qed.

Lemma grows_modify_keeping_fs (g : state -> state) :
  (forall st, fs (g st) = fs st) -> grows (modify g).
Proof. intros Hg st q H. simpl. now rewrite Hg. Qed.

Section GrowsPrimitives.
Variable E : platform.

Lemma check_fault_grows op p : grows (check_fault E op p).
Proof. unfold check_fault. destruct (fault E op p); [apply grows_raise | apply grows_ret]. Qed.

Lemma write_text_grows p data : grows (write_text E p data).
Proof.
  intros st q H. unfold write_text, check_fault.
  destruct (fault E OpWrite p); run_monad; [exact H|].
  destruct (negb (fs_isdir (dirname p) (fs st))); run_monad; [exact H|].
  destruct (fs_lookup p (fs st)) as [[|d m]|]; run_monad; simpl;
    try exact H; now apply fs_exists_put.
Qed.

Lemma chmod_grows p mode : grows (chmod E p mode).
Proof.
  intros st q H. unfold chmod, check_fault.
  destruct (fault E OpChmod p); run_monad; [exact H|].
  destruct (fs_lookup p (fs st)) as [[|d m]|]; run_monad; simpl;
    try exact H; now apply fs_exists_put.
Qed.

Lemma makedirs_grows p : grows (makedirs E p).
Proof.
  intros st q H. unfold makedirs, check_fault.
  destruct (fault E OpMakedirs p); run_monad; [exact H|].
  destruct (fs_makedirs (prefixes_from [] p) (fs st)) as [f|e] eqn:Hm; run_monad; simpl;
    [eapply fs_exists_makedirs; eassumption | exact H].
Qed.

Lemma mkdir_grows p : grows (mkdir E p).
Proof.
  intros st q H. unfold mkdir, check_fault.
  destruct (fault E OpMakedirs p); run_monad; [exact H|].
  destruct (fs_exists p (fs st)); run_monad; [exact H|].
  destruct (negb (fs_isdir (dirname p) (fs st))); run_monad; simpl;
    [exact H | now apply fs_exists_put].
Qed.

Lemma getcwd_grows : grows (getcwd E).
Proof.
  unfold getcwd. apply grows_bind; [apply check_fault_grows | intro].
  apply grows_bind; [apply grows_get_state | intro; apply grows_ret].
Qed.

Lemma chdir_grows p : grows (chdir E p).
Proof.
  unfold chdir. apply grows_bind; [apply check_fault_grows | intro].
  apply grows_bind; [apply grows_get_state | intro].
  destruct (fs_isdir p (fs a0)); [now apply grows_modify_keeping_fs | apply grows_raise].
Qed.

Lemma ssm_get_parameter_grows name d : grows (ssm_get_parameter E name d).
Proof.
  unfold ssm_get_parameter. apply grows_bind; [|intro; apply grows_lift].
  now apply grows_modify_keeping_fs.
Qed.

End GrowsPrimitives.

(** One step in showing that a computation removes nothing. *)
Ltac grows_step :=
  lazymatch goal with
  | |- grows (bind _ _) => apply grows_bind; [|intro]
  | |- grows (ret _) => apply grows_ret
  | |- grows (raise _) => apply grows_raise
  | |- grows (lift _) => apply grows_lift
  | |- grows get_state => apply grows_get_state
  | |- grows (try_except _ _) => apply grows_try_except; [|intro]
  | |- grows (for_each _ _) => apply grows_for_each; intro
  | |- grows (check_fault _ _ _) => apply check_fault_grows
  | |- grows (write_text _ _ _) => apply write_text_grows
  | |- grows (chmod _ _ _) => apply chmod_grows
  | |- grows (makedirs _ _) => apply makedirs_grows
  | |- grows (mkdir _ _) => apply mkdir_grows
  | |- grows (getcwd _) => apply getcwd_grows
  | |- grows (chdir _ _) => apply chdir_grows
  | |- grows (ssm_get_parameter _ _ _) => apply ssm_get_parameter_grows
  | |- grows (if ?b then _ else _) => destruct b
  | |- grows (match ?x with _ => _ end) => destruct x
  end.

Ltac grows_tac := cbv zeta; repeat grows_step.

Lemma extractall_grows (E : platform) (file dir : path) : grows (extractall E file dir).
Proof. unfold extractall. grows_tac. unfold extract_member. grows_tac. Qed.

Lemma hoare_grows {A} (q : path) (m : M A) :
  grows m ->
  hoare (fun st => fs_exists q (fs st) = true) m
    (fun _ st => fs_exists q (fs st) = true) (fun st => fs_exists q (fs st) = true).
Proof.
  intros Hg st H. specialize (Hg st q H). destruct (m st) as [[a|e] st']; exact Hg.
Qed.

Lemma hoare_and {A} (P1 P2 : state -> Prop) (m : M A) (Q1 Q2 : A -> state -> Prop)
    (E1 E2 : state -> Prop) :
  hoare P1 m Q1 E1 -> hoare P2 m Q2 E2 ->
  hoare (fun st => P1 st /\ P2 st) m (fun a st => Q1 a st /\ Q2 a st)
    (fun st => E1 st /\ E2 st).
Proof.
  intros H1 H2 st [HP1 HP2]. specialize (H1 st HP1). specialize (H2 st HP2).
  destruct (m st) as [[a|e] st']; now split.
Qed.

Lemma keeps_deployer {A} (m : M A) : keeps resources m -> keeps deployer m.
Proof. intros H st. specialize (H st). unfold resources in H. congruence. Qed.

Lemma staged_settled (key wd : path) (f0 : filesystem) (st : state) :
  staged key wd f0 st -> settled key f0 st.
Proof. intros (Hd & Hex & Hf). unfold settled. rewrite Hd. now split. Qed.

Lemma unstaged_settled (key : path) (d : option (option path)) (f0 : filesystem) (st : state) :
  d = None \/ d = Some None -> unstaged d f0 st -> settled key f0 st.
Proof. intros Hd [Heq Hf]. unfold settled. rewrite Heq. now destruct Hd as [->| ->]. Qed.

(** A step of [deployment_lambda] once the workspace is made. *)
Lemma staged_step {A} (key wd : path) (f0 : filesystem) (m : M A) :
  keeps resources m -> grows m -> writes_within (fun p => under wd p \/ p = key) m ->
  hoare (staged key wd f0) m (fun _ => staged key wd f0) (settled key f0).
Proof.
  intros Hk Hg Hw st (Hd & Hex & Hf).
  assert (Hst : staged key wd f0 (snd (m st))).
  { split; [|split].
    - rewrite (keeps_deployer m Hk st). exact Hd.
    - now apply Hg.
    - eapply files_within_trans; [exact Hf | apply Hw]. }
  destruct (m st) as [[a|e] st']; [exact Hst | now apply (staged_settled key wd)].
Qed.

(** A step of [deployment_lambda] before the workspace is made. *)
Lemma unstaged_step {A} (key : path) (d : option (option path)) (f0 : filesystem) (m : M A) :
  d = None \/ d = Some None ->
  keeps resources m -> writes_within nowhere m ->
  hoare (unstaged d f0) m (fun _ => unstaged d f0) (settled key f0).
Proof.
  intros Hd Hk Hw st [Heq Hf].
  assert (Hst : unstaged d f0 (snd (m st))).
  { split.
    - rewrite (keeps_deployer m Hk st). exact Heq.
    - eapply files_within_trans; [exact Hf | apply Hw]. }
  destruct (m st) as [[a|e] st']; [exact Hst | now apply (unstaged_settled key d)].
Qed.

Section DeploymentFiles.
Variable E : platform.
Variable f0 : filesystem.

Let key : path := path_join (path_join (home_dir E) ".ssh") "id_rsa".

Lemma get_secret_parameter_writes ok name d :
  writes_within ok (DeploymentLambda.get_secret_parameter E name d).
Proof.
  unfold DeploymentLambda.get_secret_parameter. writes_tac. apply ssm_get_parameter_writes.
Qed.

Lemma get_inventory_mapping_writes ok site :
  writes_within ok (DeploymentLambda.get_inventory_mapping E site).
Proof.
  unfold DeploymentLambda.get_inventory_mapping. writes_tac;
    apply get_secret_parameter_writes.
Qed.

Lemma get_inventory_mapping_grows site :
  grows (DeploymentLambda.get_inventory_mapping E site).
Proof.
  unfold DeploymentLambda.get_inventory_mapping, DeploymentLambda.get_secret_parameter.
  grows_tac.
Qed.

Lemma setup_ssh_key_writes wd content :
  writes_within (fun p => under wd p \/ p = key) (DeploymentLambda.setup_ssh_key E content).
Proof.
  unfold DeploymentLambda.setup_ssh_key. writes_tac.
  - apply write_text_writes. now right.
  - apply chmod_writes. now right.
Qed.

Lemma setup_ssh_key_grows content : grows (DeploymentLambda.setup_ssh_key E content).
Proof. unfold DeploymentLambda.setup_ssh_key. grows_tac. Qed.

Lemma create_inventory_file_writes wd h u site :
  writes_within (fun p => under wd p \/ p = key)
    (DeploymentLambda.create_inventory_file E (path_join wd "ansible") h u site).
Proof.
  unfold DeploymentLambda.create_inventory_file. writes_tac.
  apply write_text_writes. left. eapply under_join, is_prefix_join.
Qed.

Lemma create_inventory_file_grows dir h u site :
  grows (DeploymentLambda.create_inventory_file E dir h u site).
Proof. unfold DeploymentLambda.create_inventory_file. grows_tac. Qed.

Lemma execute_ansible_playbook_writes ok dir inv extra :
  writes_within ok (DeploymentLambda.execute_ansible_playbook E dir inv extra).
Proof.
  unfold DeploymentLambda.execute_ansible_playbook. writes_tac;
    first [apply getcwd_writes | apply chdir_writes].
Qed.

Lemma execute_ansible_playbook_grows dir inv extra :
  grows (DeploymentLambda.execute_ansible_playbook E dir inv extra).
Proof. unfold DeploymentLambda.execute_ansible_playbook. grows_tac. Qed.

Lemma download_ansible_package_grows b k :
  grows (DeploymentLambda.download_ansible_package E b k).
Proof.
  unfold DeploymentLambda.download_ansible_package, DeploymentLambda.self_work_dir.
  grows_tac. apply extractall_grows.
Qed.

Lemma download_ansible_package_value b k wd a st st' :
  deployer st = Some (Some wd) ->
  DeploymentLambda.download_ansible_package E b k st = (Ok a, st') ->
  a = path_join wd "ansible".
Proof.
  intros Hd. unfold DeploymentLambda.download_ansible_package, DeploymentLambda.self_work_dir.
  cbv zeta. run_monad. rewrite Hd.
  destruct (s3_object E b k) as [data|e]; [|discriminate].
  destruct (write_text E _ data st) as [[[]|e] st1]; [|discriminate].
  destruct (extractall E _ _ st1) as [[[]|e] st2]; [|discriminate].
  now intros [= <- _].
Qed.

Lemma download_ansible_package_staged b k wd :
  hoare (staged key wd f0) (DeploymentLambda.download_ansible_package E b k)
    (fun a st => a = path_join wd "ansible" /\ staged key wd f0 st) (settled key f0).
Proof.
  intros st (Hd & Hex & Hf).
  assert (Hst : staged key wd f0
                  (snd (DeploymentLambda.download_ansible_package E b k st))).
  { split; [|split].
    - rewrite (keeps_deployer _ (download_ansible_package_keeps E b k) st). exact Hd.
    - now apply download_ansible_package_grows.
    - eapply files_within_trans; [exact Hf|].
      eapply files_within_mono; [|apply (download_ansible_package_writes E b k wd st Hd)].
      intros p [->|Hin]; left.
      + apply is_prefix_join.
      + eapply under_join, inside_under, Hin. }
  pose proof (fun a st' => download_ansible_package_value b k wd a st st' Hd) as Hv.
  destruct (DeploymentLambda.download_ansible_package E b k st) as [[a|e] st'].
  - split; [now apply (Hv a st') | exact Hst].
  - now apply (staged_settled key wd).
Qed.

Lemma new_deployer_unstaged :
  hoare (unstaged None f0) (DeploymentLambda.new_deployer E)
    (fun _ => unstaged (Some None) f0) (settled key f0).
Proof.
  intros st [Hd Hf]. unfold DeploymentLambda.new_deployer, check_fault.
  destruct (fault E OpClient []); run_monad.
  - apply (unstaged_settled key None); [now left | now split].
  - now split.
Qed.

Lemma setup_work_directory_staged :
  hoare (unstaged (Some None) f0) (DeploymentLambda.setup_work_directory E)
    (fun wd => staged key wd f0) (settled key f0).
Proof.
  intros st [Hd Hf]. unfold DeploymentLambda.setup_work_directory, mkdtemp.
  destruct (tempfile_mkdtemp E "ansible_deploy_") as [wd|e]; run_monad.
  - split; [reflexivity | split].
    + cbn [fs set_fs log_workspace set_deployer]. unfold fs_exists.
      now rewrite fs_lookup_put.
    + cbn [fs set_fs log_workspace set_deployer].
      eapply files_within_trans; [|now apply files_within_put].
      eapply files_within_mono; [|exact Hf]. intros p [].
  - apply (unstaged_settled key (Some None)); [now right | now split].
Qed.

(** The [finally] clause leaves, of the files written, the key file. *)
Lemma deployment_finally_files :
  hoare (settled key f0)
    (st <- get_state ;;
     match deployer st with
     | Some _ => DeploymentLambda.cleanup
     | None => ret tt
     end)
    (fun _ => files_of_state (fun p => p = key) f0)
    (files_of_state (fun p => p = key) f0).
Proof.
  intros st H. unfold settled in H. unfold DeploymentLambda.cleanup, rmtree. run_monad.
  unfold files_of_state.
  destruct (deployer st) as [[wd|]|] eqn:Hd; run_monad; rewrite ?Hd;
    try (eapply files_within_mono; [|exact H]; intros p []).
  destruct H as [Hex Hf]. rewrite Hex. run_monad. rewrite Hex. cbn [orb fs set_fs].
  intros p d m Hin. apply filter_In in Hin as [Hin Hp]. simpl in Hp.
  destruct (Hf p d m Hin) as [H0|[Hu|Hk]]; [now left | | now right].
  unfold under in Hu. rewrite Hu in Hp. discriminate.
Qed.

Lemma deployment_handler_files (event : value) :
  hoare (files_of_state nowhere f0) (DeploymentLambda.lambda_handler E event)
    (fun _ => files_of_state (fun p => p = key) f0)
    (files_of_state (fun p => p = key) f0).
Proof.
  unfold DeploymentLambda.lambda_handler.
  apply hoare_bind with (R := fun _ => unstaged None f0).
  { intros st H. run_monad. now split. }
  intros _. apply hoare_try_finally with (R := settled key f0);
    [|apply deployment_finally_files].
  apply hoare_try_except with (R := settled key f0).
  2:{ intros e. apply hoare_ret. auto. }
  apply hoare_bind with (R := fun _ => unstaged None f0).
  { apply unstaged_step; [now left | apply keeps_lift | apply writes_lift]. }
  intros req.
  match goal with |- hoare _ (if ?b then _ else _) _ _ => destruct b end.
  { apply hoare_ret. intros st H. apply (unstaged_settled key None); auto. }
  cbv zeta.
  apply hoare_bind with (R := fun _ => unstaged (Some None) f0);
    [apply new_deployer_unstaged | intros _].
  apply hoare_bind with (R := fun wd => staged key wd f0);
    [apply setup_work_directory_staged | intros wd].
  apply hoare_bind with (R := fun _ => staged key wd f0).
  { apply staged_step; [auto with keeps | apply get_inventory_mapping_grows
                        | apply get_inventory_mapping_writes]. }
  intros inv.
  apply hoare_bind with (R := fun _ => staged key wd f0).
  { apply staged_step; [auto with keeps | apply setup_ssh_key_grows
                        | apply setup_ssh_key_writes]. }
  intros ssh_key_path.
  apply hoare_bind with
    (R := fun a st => a = path_join wd "ansible" /\ staged key wd f0 st);
    [apply download_ansible_package_staged | intros ansible_dir].
  apply hoare_pure. intros ->.
  apply hoare_bind with (R := fun _ => staged key wd f0).
  { apply staged_step; [auto with keeps | apply create_inventory_file_grows
                        | apply create_inventory_file_writes]. }
  intros inventory_path.
  apply hoare_bind with (R := fun _ => staged key wd f0).
  { apply staged_step; [auto with keeps | apply execute_ansible_playbook_grows
                        | apply execute_ansible_playbook_writes]. }
  intros result.
  match goal with |- hoare _ (if ?b then _ else _) _ _ => destruct b end;
    apply hoare_ret; intros st H; now apply (staged_settled key wd).
Qed.

End DeploymentFiles.


(** ** What the responses say *)

Section ReturnsOnly.
Context {A B : Type}.

Lemma returns_ret (P : A -> Prop) (a : A) : P a -> returns_only P (ret a).
Proof. intros H st a' st' [= <- _]. exact H. Qed.

Lemma returns_raise (P : A -> Prop) (e : exn) : returns_only P (raise e).
Proof. intros st a st' [=]. Qed.

Lemma returns_bind (P : B -> Prop) (m : M A) (k : A -> M B) :
  (forall a, returns_only P (k a)) -> returns_only P (bind m k).
Proof.
  intros Hk st b st'. unfold bind. destruct (m st) as [[a|e] st1]; [apply Hk|discriminate].
Qed.

(** The same, with what is known of the value of the first step. *)
Lemma returns_bind_value (V : A -> Prop) (P : B -> Prop) (m : M A) (k : A -> M B) :
  returns_only V m -> (forall a, V a -> returns_only P (k a)) -> returns_only P (bind m k).
Proof.
  intros Hm Hk st b st'. unfold bind. destruct (m st) as [[a|e] st1] eqn:Hrun; [|discriminate].
  apply Hk. exact (Hm st a st1 Hrun).
Qed.

Lemma returns_try_except (P : A -> Prop) (m : M A) (h : exn -> M A) :
  returns_only P m -> (forall e, returns_only P (h e)) -> returns_only P (try_except m h).
Proof.
  intros Hm Hh st a st'. unfold try_except.
  destruct (m st) as [[a1|e] st1] eqn:Hrun; [|apply Hh].
  intros [= <- _]. exact (Hm st a1 st1 Hrun).
Qed.

Lemma returns_try_finally (P : A -> Prop) (m : M A) (c : M unit) :
  returns_only P m -> returns_only P (try_finally m c).
Proof.
  intros Hm st a st'. unfold try_finally.
  destruct (m st) as [r st1] eqn:Hrun. destruct (c st1) as [[[]|e] st2]; [|discriminate].
  intros [= -> _]. exact (Hm st a st1 Hrun).
Qed.

End ReturnsOnly.

(** One step in showing what a handler returns, for a property that the
    responses written in the handler have by computation. *)
Ltac returns_tac :=
  cbv zeta;
  repeat first
    [ apply returns_bind; intro
    | apply returns_try_finally
    | apply returns_raise
    | match goal with |- returns_only _ (if ?b then _ else _) => destruct b end ].

(** What [_run_playbook] returns is made of what the tool returned. *)
Lemma run_playbook_value (E : platform) (dir : path) (extra : list (string * value))
    (key : path) :
  returns_only
    (fun r => exists cp,
       subprocess_run E (AnsibleLambda.playbook_cmd E dir extra) dir
         (AnsibleLambda.playbook_env E) = Ok cp /\
       r = mkResult (cp_returncode cp) (tail 20000 (cp_stdout cp))
             (tail 20000 (cp_stderr cp)) (cp_returncode cp =? 0)%Z)
    (AnsibleLambda._run_playbook E dir extra key).
Proof.
  intros st r st'. unfold AnsibleLambda._run_playbook. run_monad.
  destruct (subprocess_run E _ dir _) as [cp|e]; [|discriminate].
  intros [= <- _]. now exists cp.
Qed.

(** What [execute_ansible_playbook] returns is made of what the tool
    returned, or is the failure made up for an exception. *)
Lemma execute_ansible_playbook_value (E : platform) (dir inv : path)
    (extra : list (string * value)) :
  returns_only
    (fun r =>
       (exists wd cp,
          subprocess_run E (DeploymentLambda.playbook_cmd E inv extra) wd
            (DeploymentLambda.playbook_env E) = Ok cp /\
          r = mkResult (cp_returncode cp) (cp_stdout cp) (cp_stderr cp)
                (cp_returncode cp =? 0)%Z) \/
       (exists msg, r = mkResult (-1) "" msg false))
    (DeploymentLambda.execute_ansible_playbook E dir inv extra).
Proof.
  intros st r st'. unfold DeploymentLambda.execute_ansible_playbook. run_monad.
  destruct (getcwd E st) as [[orig|e] s1];
    [destruct (chdir E dir s1) as [[[]|e] s2];
       [destruct (subprocess_run E _ (cwd s2) _) as [cp|e] eqn:Hrun;
          [destruct (chdir E orig s2) as [[[]|e] s3]|]|]|];
    try (destruct (is_timeout e); intros [= <- _]; right; eauto).
  intros [= <- _]. left. now exists (cwd s2), cp.
Qed.

Lemma tail_bound (n : N) (s : string) :
  n <> 0%N -> String.length (tail n s) <= N.to_nat n.
Proof. intros Hn. rewrite tail_length by exact Hn. lia. Qed.

Lemma ansible_handler_responses (E : platform) (event : value) :
  returns_only
    (fun r => (statusCode r = 200%Z -> tool_succeeded E) /\
              excerpts_within 4000 ["ansible_stdout_tail"; "stderr_tail"; "stdout_tail"] r)
    (AnsibleLambda.lambda_handler E event).
Proof.
  assert (Hplain : forall code msg,
            code <> 200%Z ->
            (statusCode (mkResponse code [("error", VStr msg)]) = 200%Z -> tool_succeeded E) /\
            excerpts_within 4000 ["ansible_stdout_tail"; "stderr_tail"; "stdout_tail"]
              (mkResponse code [("error", VStr msg)])).
  { intros code msg Hc. split; [intros H; contradiction|].
    intros k s [<-|[<-|[<-|[]]]]; discriminate. }
  unfold AnsibleLambda.lambda_handler. apply returns_try_except.
  2:{ intros e. apply returns_ret. now apply Hplain. }
  apply returns_bind; intros req.
  match goal with |- returns_only _ (if ?b then _ else _) => destruct b end;
    [apply returns_ret; now apply Hplain|].
  cbv zeta. do 7 (apply returns_bind; intro). apply returns_try_finally.
  do 3 (apply returns_bind; intro).
  eapply returns_bind_value; [apply run_playbook_value|].
  intros result (cp & Hrun & ->). cbn [success stdout stderr].
  destruct (cp_returncode cp =? 0)%Z eqn:Hrc; apply returns_ret; split.
  - intros _. apply Z.eqb_eq in Hrc. unfold tool_succeeded. eauto 10.
  - intros k s [<-|[<-|[<-|[]]]]; cbn; try discriminate.
    intros [= <-]. pose proof (tail_bound 2000 (tail 20000 (cp_stdout cp))). lia.
  - cbn. discriminate.
  - intros k s [<-|[<-|[<-|[]]]]; cbn; try discriminate; intros [= <-].
    + pose proof (tail_bound 4000 (tail 20000 (cp_stderr cp))). lia.
    + pose proof (tail_bound 4000 (tail 20000 (cp_stdout cp))). lia.
Qed.

Lemma deployment_handler_responses (E : platform) (event : value) :
  returns_only
    (fun r => (statusCode r = 200%Z -> tool_succeeded E) /\
              excerpts_within 2000 ["ansible_output"; "ansible_stderr"; "ansible_stdout"] r)
    (DeploymentLambda.lambda_handler E event).
Proof.
  assert (Hplain : forall code (b : list (string * value)),
            code <> 200%Z ->
            (forall k, In k ["ansible_output"; "ansible_stderr"; "ansible_stdout"] ->
                       assoc k b = None) ->
            (statusCode (mkResponse code b) = 200%Z -> tool_succeeded E) /\
            excerpts_within 2000 ["ansible_output"; "ansible_stderr"; "ansible_stdout"]
              (mkResponse code b)).
  { intros code b Hc Hb. split; [intros H; contradiction|].
    intros k s Hk. cbn [body]. rewrite (Hb k Hk). discriminate. }
  unfold DeploymentLambda.lambda_handler.
  apply returns_bind; intros _. apply returns_try_finally, returns_try_except.
  2:{ intros e. apply returns_ret. apply Hplain; [discriminate|].
      intros k [<-|[<-|[<-|[]]]]; reflexivity. }
  apply returns_bind; intros req.
  match goal with |- returns_only _ (if ?b then _ else _) => destruct b end.
  { apply returns_ret. apply Hplain; [discriminate|].
    intros k [<-|[<-|[<-|[]]]]; reflexivity. }
  cbv zeta. do 6 (apply returns_bind; intro).
  eapply returns_bind_value; [apply execute_ansible_playbook_value|].
  intros result Hres.
  destruct (success result) eqn:Hsucc; apply returns_ret; split.
  - intros _. destruct Hres as [(wd & cp & Hrun & ->)|(msg & ->)]; [|discriminate].
    cbn in Hsucc. apply Z.eqb_eq in Hsucc. unfold tool_succeeded. eauto 10.
  - intros k s [<-|[<-|[<-|[]]]]; cbn; try discriminate.
    intros [= <-]. pose proof (tail_bound 2000 (stdout result)). lia.
  - cbn. discriminate.
  - intros k s [<-|[<-|[<-|[]]]]; cbn; try discriminate; intros [= <-].
    + pose proof (tail_bound 2000 (stderr result)). lia.
    + pose proof (tail_bound 2000 (stdout result)). lia.
Qed.



(** X4.  The excerpts of the tool's output in a response are bounded: at
    most 4000 characters under each of [ansible_lambda]'s keys, at most
    2000 under each of [deployment_lambda]'s, however much the tool wrote. *)
Theorem response_excerpts_bounded (E : platform) (event : value) (st st' : state)
    (r : response) :
  (AnsibleLambda.lambda_handler E event st = (Ok r, st') ->
   excerpts_within 4000 ["ansible_stdout_tail"; "stderr_tail"; "stdout_tail"] r) /\
  (DeploymentLambda.lambda_handler E event st = (Ok r, st') ->
   excerpts_within 2000 ["ansible_output"; "ansible_stderr"; "ansible_stdout"] r).
Proof.
  split; intros H.
  - exact (proj2 (ansible_handler_responses E event st r st' H)).
  - exact (proj2 (deployment_handler_responses E event st r st' H)).
Qed.

Lemma response_excerpts_bounded_witness :
  excerpts_within 4000 ["ansible_stdout_tail"; "stderr_tail"; "stdout_tail"]
    (mkResponse 200
       [("message", VStr "Deployment succeeded"); ("service_name", VStr "svc1");
        ("timestamp", VStr "t1"); ("site", VStr "sit1"); ("target_vm", VStr "vm1.example");
        ("ansible_stdout_tail", VStr "PLAY RECAP")]).
Proof.
  eapply (proj1 (response_excerpts_bounded
                   (Scenario.with_tool Scenario.tool_ok Scenario.playbooks)
                   Scenario.event_sit1 Scenario.st0 _ _)).
  reflexivity.
Defined.

(** ** Secrets that do not resolve *)

(** X5.  [ansible_lambda]: when the site record does not resolve (the
    secret store raises, or its JSON value has no [VM_HOSTNAME]) the
    handler answers 500 with the text of that error, and has created no
    workspace and touched no file. *)
Theorem ansible_unresolved_site (E : platform) (event : value)
    (req : AnsibleLambda.request) (e : exn) (st : state) :
  AnsibleLambda.read_request E event = Ok req ->
  truthy (AnsibleLambda.req_service_name req) = true ->
  truthy (AnsibleLambda.req_jar_timestamp req) = true ->
  secretsmanager E ("demoapp/vm/" ++ AnsibleLambda.req_site req) = Raise e \/
  (exists s b vm,
     secretsmanager E ("demoapp/vm/" ++ AnsibleLambda.req_site req)
     = Ok (mkSecret (Some s) b) /\
     json_parse E s = Some vm /\ py_index vm "VM_HOSTNAME" = Raise e) ->
  fst (AnsibleLambda.lambda_handler E event st)
  = Ok (mkResponse 500 [("error", VStr (exn_str e))]) /\
  workspaces (snd (AnsibleLambda.lambda_handler E event st)) = workspaces st /\
  fs (snd (AnsibleLambda.lambda_handler E event st)) = fs st.
Proof.
  intros Hreq Hsn Hjt Hfail.
  unfold AnsibleLambda.lambda_handler. rewrite Hreq. run_monad. rewrite Hsn, Hjt.
  cbn [negb orb]. unfold AnsibleLambda._get_json_secret, get_secret_value. run_monad.
  destruct Hfail as [-> | (s & b & vm & -> & Hvm & Hidx)].
  - repeat split.
  - cbn [SecretString]. unfold json_loads. rewrite Hvm, Hidx. repeat split.
Qed.

Lemma ansible_unresolved_site_witness :
  fst (AnsibleLambda.lambda_handler
         (Scenario.with_tool Scenario.tool_ok Scenario.playbooks)
         Scenario.event_unknown_site Scenario.st0)
  = Ok (mkResponse 500 [("error", VStr "ResourceNotFoundException")]) /\
  workspaces (snd (AnsibleLambda.lambda_handler
                     (Scenario.with_tool Scenario.tool_ok Scenario.playbooks)
                     Scenario.event_unknown_site Scenario.st0)) = [] /\
  fs (snd (AnsibleLambda.lambda_handler
             (Scenario.with_tool Scenario.tool_ok Scenario.playbooks)
             Scenario.event_unknown_site Scenario.st0)) = Scenario.fs0.
Proof.
  apply (ansible_unresolved_site
           (Scenario.with_tool Scenario.tool_ok Scenario.playbooks)
           Scenario.event_unknown_site
           (AnsibleLambda.mkRequest (VStr "svc1") (VStr "t1") "uat9" (VStr "appadm"))
           (mkExn ClientError "ResourceNotFoundException") Scenario.st0);
    try reflexivity.
  left. reflexivity.
Defined.

(** [get_inventory_mapping] raises one error only, whatever went wrong. *)
Lemma get_inventory_mapping_error (E : platform) (site : string) (st st' : state) (e : exn) :
  DeploymentLambda.get_inventory_mapping E site st = (Raise e, st') ->
  e = mkExn ValueError ("No inventory mapping found for site: " ++ site).
Proof.
  unfold DeploymentLambda.get_inventory_mapping, try_except.
  destruct (bind _ _ st) as [[inv|e0] st1]; [discriminate|].
  unfold raise. now intros [= <- _].
Qed.



(** ** The key file *)

Lemma str_append_nil_r (s : string) : s ++ "" = s.
Proof. induction s as [|c s IH]; simpl; [reflexivity | now rewrite IH]. Qed.

Lemma str_rev_onto_twice (s a b : string) :
  str_rev_onto (str_rev_onto s a) b = str_rev_onto a (s ++ b).
Proof.
  revert a b. induction s as [|c r IH]; intros a b; simpl; [reflexivity|].
  now rewrite IH.
Qed.

Lemma str_rev_involutive (s : string) : str_rev (str_rev s) = s.
Proof. unfold str_rev. rewrite str_rev_onto_twice. simpl. apply str_append_nil_r. Qed.

Lemma str_rev_onto_append (a b acc : string) :
  str_rev_onto (a ++ b) acc = str_rev_onto b (str_rev_onto a acc).
Proof. revert acc. induction a as [|c a IH]; intros acc; simpl; [reflexivity | apply IH]. Qed.

Lemma str_rev_append (a b : string) : str_rev (a ++ b) = str_rev b ++ str_rev a.
Proof. unfold str_rev at 1. rewrite str_rev_onto_append. apply str_rev_onto_app. Qed.

Lemma lstrip_idem (s : string) : lstrip (lstrip s) = lstrip s.
Proof.
  induction s as [|c r IH]; [reflexivity|]. simpl.
  destruct (is_space c) eqn:Hc; [exact IH|]. simpl. now rewrite Hc.
Qed.

(** What [lstrip] removes is a prefix. *)
Lemma lstrip_split (s : string) : exists w, s = w ++ lstrip s.
Proof.
  induction s as [|c r [w IH]]; [now exists ""|]. simpl.
  destruct (is_space c).
  - exists (String c w). simpl. now rewrite <- IH.
  - now exists "".
Qed.

(** A text that starts as one without leading white space starts without. *)
Lemma lstrip_prefix (a b : string) :
  a <> "" -> lstrip (a ++ b) = a ++ b -> lstrip a = a.
Proof.
  destruct a as [|c a]; [contradiction|]. intros _. simpl.
  destruct (is_space c) eqn:Hc; [|reflexivity].
  intros H. exfalso.
  assert (Hlen : String.length (lstrip (a ++ b)) <= String.length (a ++ b)).
  { clear. induction (a ++ b) as [|x r IH]; simpl; [lia|].
    destruct (is_space x); simpl; lia. }
  rewrite H in Hlen. simpl in Hlen. lia.
Qed.

Lemma strip_trimmed (s : string) : trimmed (strip s).
Proof.
  unfold trimmed, strip. split.
  - destruct (lstrip_split (str_rev (lstrip s))) as [w Hw].
    set (u := lstrip (str_rev (lstrip s))) in *.
    assert (Ht : lstrip s = str_rev u ++ str_rev w).
    { rewrite <- (str_rev_involutive (lstrip s)), Hw. apply str_rev_append. }
    destruct (str_rev u) as [|c x] eqn:Hu; [reflexivity|].
    apply (lstrip_prefix (String c x) (str_rev w)); [discriminate|].
    rewrite <- Ht. apply lstrip_idem.
  - rewrite str_rev_involutive. apply lstrip_idem.
Qed.

Lemma strip_idem (s : string) : strip (strip s) = strip s.
Proof.
  destruct (strip_trimmed s) as [Hl Hr]. unfold strip at 1.
  now rewrite Hl, Hr, str_rev_involutive.
Qed.

Lemma lstrip_length (s : string) : String.length (lstrip s) <= String.length s.
Proof.
  induction s as [|c r IH]; simpl; [lia|]. destruct (is_space c); simpl; lia.
Qed.

(** A newline added to a trimmed text is all that [strip] finds to remove. *)
Lemma strip_append_nl (s : string) : trimmed s -> strip (s ++ nl) = s.
Proof.
  intros [Hl Hr]. destruct s as [|c x]; [reflexivity|].
  assert (Hc : is_space c = false).
  { simpl in Hl. destruct (is_space c); [|reflexivity]. exfalso.
    pose proof (lstrip_length x) as Hlen. rewrite Hl in Hlen. simpl in Hlen. lia. }
  unfold strip.
  assert (Hlead : lstrip (String c x ++ nl) = String c x ++ nl)
    by (simpl; now rewrite Hc).
  rewrite Hlead, str_rev_append.
  change (str_rev nl ++ str_rev (String c x))
    with (String (ascii_of_nat 10) (str_rev (String c x))).
  cbn [lstrip]. change (is_space (ascii_of_nat 10)) with true. cbv iota.
  rewrite Hr. apply str_rev_involutive.
Qed.

(** X7.  [ansible_lambda]: when [_write_ssh_key] returns, the file
    [id_rsa] of the workspace holds the key material of the secret with
    the white space at both ends removed and one newline added, whatever
    white space the secret came with, and its mode is 0600. *)
Theorem ssh_key_file_normalised (E : platform) (wd : path) (id : string)
    (st st' : state) (p : path) :
  AnsibleLambda._write_ssh_key E wd id st = (Ok p, st') ->
  exists secret key,
    secretsmanager E id = Ok secret /\
    AnsibleLambda.key_material_of E secret = Ok key /\
    fs_lookup (path_join wd "id_rsa") (fs st')
    = Some (File (strip key ++ nl) owner_only_mode) /\
    trimmed (strip key) /\ strip (strip key ++ nl) = strip key.
Proof.
  unfold AnsibleLambda._write_ssh_key. cbv zeta. intros H.
  apply bind_ok in H as (secret & st1 & Hsec & H).
  apply bind_ok in H as (key & st2 & Hkey & H).
  apply bind_ok in H as ([] & st3 & Hw & H).
  apply bind_ok in H as ([] & st4 & Hc & H).
  injection H as <- <-.
  exists secret, key. repeat split.
  - unfold get_secret_value in Hsec. run_monad_in Hsec.
    destruct (secretsmanager E id); now inversion Hsec.
  - unfold lift in Hkey. now inversion Hkey.
  - apply write_text_result in Hw as [m Hw]. eapply chmod_result; eassumption.
  - apply strip_trimmed.
  - apply strip_trimmed.
  - apply strip_append_nl, strip_trimmed.
Qed.

Lemma ssh_key_file_normalised_witness :
  exists secret key,
    secretsmanager (Scenario.with_tool Scenario.tool_ok Scenario.playbooks)
      "demoapp/vm/ssh-key" = Ok secret /\
    AnsibleLambda.key_material_of
      (Scenario.with_tool Scenario.tool_ok Scenario.playbooks) secret = Ok key /\
    fs_lookup (path_join Scenario.workspace "id_rsa")
      (fs (snd (AnsibleLambda._write_ssh_key
                  (Scenario.with_tool Scenario.tool_ok Scenario.playbooks)
                  Scenario.workspace "demoapp/vm/ssh-key" Scenario.staging)))
    = Some (File (strip key ++ nl) owner_only_mode) /\
    trimmed (strip key) /\ strip (strip key ++ nl) = strip key.
Proof.
  apply (ssh_key_file_normalised
           (Scenario.with_tool Scenario.tool_ok Scenario.playbooks)
           Scenario.workspace "demoapp/vm/ssh-key" Scenario.staging
           (snd (AnsibleLambda._write_ssh_key
                   (Scenario.with_tool Scenario.tool_ok Scenario.playbooks)
                   Scenario.workspace "demoapp/vm/ssh-key" Scenario.staging))
           (path_join Scenario.workspace "id_rsa")).
  vm_compute. reflexivity.
Defined.

(** ** The two renderings of the extra variables *)

(** X8.  The two handlers render the extra variables alike but for
    [None]: what [ansible_lambda] renders of a mapping is what
    [deployment_lambda] renders of the mapping without its [None] entries,
    in the same order. *)
Theorem extra_args_is_extra_vars_list_without_none (E : platform)
    (extra : list (string * value)) :
  AnsibleLambda.extra_args E extra
  = DeploymentLambda.extra_vars_list E (filter non_null extra).
Proof.
  induction extra as [|[k v] r IH]; [reflexivity|].
  destruct v; cbn [AnsibleLambda.extra_args filter non_null snd
                   DeploymentLambda.extra_vars_list]; now rewrite IH.
Qed.

(** X9.  [ansible_lambda]: the command line has exactly one [-e] for each
    entry of the mapping that is not [None], and each argument the mapping
    adds is [-e] or renders such an entry as [key=value]. *)
Theorem ansible_cmd_flags (E : platform) (dir : path) (extra : list (string * value)) :
  count_occ string_dec (AnsibleLambda.playbook_cmd E dir extra) "-e"
  = List.length (filter non_null extra) /\
  Forall (fun a => a = "-e" \/
                   exists k v, In (k, v) extra /\ v <> VNone /\
                               a = k ++ "=" ++ py_str (py_repr E) v)
    (AnsibleLambda.extra_args E extra).
Proof.
  split; [apply ansible_playbook_cmd_count|].
  apply Forall_forall. intros a. apply ansible_extra_args_non_null.
Qed.

(** ** The executors *)


(** X11.  [deployment_lambda]: [execute_ansible_playbook] changes into the
    automation directory and changes back only after the tool has
    returned.  When [subprocess.run] raises (a timeout, a launch failure)
    the process is left in the automation directory; when the tool
    returns and the original directory is still there, the process is
    back where it was. *)
Theorem executor_working_directory (E : platform) (dir inv : path)
    (extra : list (string * value)) (st : state) :
  fault E OpGetcwd [] = None ->
  fault E OpChdir dir = None ->
  fs_isdir dir (fs st) = true ->
  (forall e,
     subprocess_run E (DeploymentLambda.playbook_cmd E inv extra) dir
       (DeploymentLambda.playbook_env E) = Raise e ->
     cwd (snd (DeploymentLambda.execute_ansible_playbook E dir inv extra st)) = dir) /\
  (forall cp,
     subprocess_run E (DeploymentLambda.playbook_cmd E inv extra) dir
       (DeploymentLambda.playbook_env E) = Ok cp ->
     fault E OpChdir (cwd st) = None ->
     fs_isdir (cwd st) (fs st) = true ->
     cwd (snd (DeploymentLambda.execute_ansible_playbook E dir inv extra st)) = cwd st).
Proof.
  intros Hg Hc Hd.
  split; [intros e Hrun | intros cp Hrun Hback Horig];
    unfold DeploymentLambda.execute_ansible_playbook, getcwd, chdir, check_fault;
    rewrite Hg, Hc; run_monad; rewrite Hd; run_monad; cbn [cwd set_cwd]; rewrite Hrun;
    run_monad.
  - destruct (is_timeout e); reflexivity.
  - rewrite Hback. run_monad. cbn [fs set_cwd]. rewrite Horig. reflexivity.
Qed.

Lemma executor_working_directory_witness :
  cwd (snd (DeploymentLambda.execute_ansible_playbook
              (Scenario.with_tool Scenario.tool_timeout Scenario.playbooks)
              Scenario.workspace (path_join Scenario.workspace "hosts") []
              Scenario.staging))
  = Scenario.workspace.
Proof.
  apply (proj1 (executor_working_directory
                  (Scenario.with_tool Scenario.tool_timeout Scenario.playbooks)
                  Scenario.workspace (path_join Scenario.workspace "hosts") []
                  Scenario.staging eq_refl eq_refl eq_refl)
               (mkExn TimeoutExpired "Command timed out after 900 seconds")).
  reflexivity.
Defined.

(** X12.  The environment either executor gives the tool is the ambient
    environment with a few variables set over it: host key checking is
    [False], every variable the executor does not set has its ambient
    value, [ansible_lambda] keeps an ambient [ANSIBLE_STDOUT_CALLBACK]
    and [deployment_lambda] replaces it by [yaml]. *)
Theorem executor_environment (E : platform) (k : string) :
  assoc "ANSIBLE_HOST_KEY_CHECKING" (AnsibleLambda.playbook_env E) = Some "False" /\
  assoc "ANSIBLE_HOST_KEY_CHECKING" (DeploymentLambda.playbook_env E) = Some "False" /\
  assoc "ANSIBLE_STDOUT_CALLBACK" (AnsibleLambda.playbook_env E)
  = Some match assoc "ANSIBLE_STDOUT_CALLBACK" (os_environ E) with
         | Some v => v
         | None => "yaml"
         end /\
  assoc "ANSIBLE_STDOUT_CALLBACK" (DeploymentLambda.playbook_env E) = Some "yaml" /\
  (k <> "ANSIBLE_HOST_KEY_CHECKING" -> k <> "ANSIBLE_STDOUT_CALLBACK" ->
   assoc k (AnsibleLambda.playbook_env E) = assoc k (os_environ E)) /\
  (k <> "ANSIBLE_HOST_KEY_CHECKING" -> k <> "ANSIBLE_STDOUT_CALLBACK" ->
   k <> "ANSIBLE_GATHERING" ->
   assoc k (DeploymentLambda.playbook_env E) = assoc k (os_environ E)).
Proof.
  unfold AnsibleLambda.playbook_env, DeploymentLambda.playbook_env.
  repeat split; try reflexivity.
  - intros H1 H2. cbn [assoc].
    destruct (String.eqb_spec k "ANSIBLE_STDOUT_CALLBACK"); [contradiction|].
    destruct (String.eqb_spec k "ANSIBLE_HOST_KEY_CHECKING"); [contradiction|].
    reflexivity.
  - intros H1 H2 H3. cbn [assoc].
    destruct (String.eqb_spec k "ANSIBLE_GATHERING"); [contradiction|].
    destruct (String.eqb_spec k "ANSIBLE_STDOUT_CALLBACK"); [contradiction|].
    destruct (String.eqb_spec k "ANSIBLE_HOST_KEY_CHECKING"); [contradiction|].
    reflexivity.
Qed.

Lemma executor_environment_witness :
  assoc "AWS_S3_BUCKET_REPOSITORY"
    (AnsibleLambda.playbook_env (Scenario.with_tool Scenario.tool_ok Scenario.playbooks))
  = assoc "AWS_S3_BUCKET_REPOSITORY"
      (os_environ (Scenario.with_tool Scenario.tool_ok Scenario.playbooks)).
Proof.
  apply (executor_environment (Scenario.with_tool Scenario.tool_ok Scenario.playbooks)
           "AWS_S3_BUCKET_REPOSITORY"); discriminate.
Defined.

(** ** The packaging script *)

(** The directories walked below a directory, one after the other. *)
Lemma walk_dir (root : path) (children : list (string * PackageAnsible.tree)) :
  PackageAnsible.walk root (PackageAnsible.TDir children)
  = (PackageAnsible.files_here root children ++
     flat_map (fun c =>
                 match snd c with
                 | PackageAnsible.TDir _ =>
                     if PackageAnsible.kept_dir (fst c)
                     then PackageAnsible.walk (path_join root (fst c)) (snd c)
                     else []
                 | PackageAnsible.TFile _ => []
                 end) children)%list.
Proof.
  cbn [PackageAnsible.walk]. f_equal.
  induction children as [|[d sub] r IH]; [reflexivity|].
  cbn [flat_map fst snd]. rewrite <- IH.
  destruct sub; [reflexivity|].
  destruct (PackageAnsible.kept_dir d); reflexivity.
Qed.

Lemma files_here_spec (root : path) (children : list (string * PackageAnsible.tree))
    (p : path) (data : string) :
  In (p, data) (PackageAnsible.files_here root children) <->
  exists name, p = path_join root name /\
               In (name, PackageAnsible.TFile data) children /\
               PackageAnsible.skipped_file name = false.
Proof.
  induction children as [|[name sub] r IH]; cbn [PackageAnsible.files_here].
  - split; [intros [] | intros (name & _ & [] & _)].
  - destruct sub as [d|cs].
    + destruct (PackageAnsible.skipped_file name) eqn:Hs.
      * rewrite IH. split.
        -- intros (n & Hp & Hin & Hk). exists n. split; [exact Hp|]. split; [right; exact Hin | exact Hk].
        -- intros (n & Hp & [Hin|Hin] & Hk).
           ++ inversion Hin; subst. congruence.
           ++ exists n. auto.
      * cbn [In]. rewrite IH. split.
        -- intros [Heq|(n & Hp & Hin & Hk)].
           ++ inversion Heq; subst. exists name. split; [reflexivity|]. split; [left; reflexivity | exact Hs].
           ++ exists n. split; [exact Hp|]. split; [right; exact Hin | exact Hk].
        -- intros (n & Hp & [Hin|Hin] & Hk).
           ++ inversion Hin; subst. left; reflexivity.
           ++ right. exists n. auto.
    + rewrite IH. split.
      * intros (n & Hp & Hin & Hk). exists n. split; [exact Hp|]. split; [right; exact Hin | exact Hk].
      * intros (n & Hp & [Hin|Hin] & Hk); [discriminate Hin|]. exists n. auto.
Qed.

Lemma kept_cons (d : string) (rel : list string) :
  rel <> [] ->
  PackageAnsible.kept (d :: rel) = PackageAnsible.kept_dir d && PackageAnsible.kept rel.
Proof. destruct rel; [congruence | reflexivity]. Qed.

Lemma file_at_nonempty (t : PackageAnsible.tree) (rel : list string) (data : string) :
  PackageAnsible.file_at t rel data -> rel <> [].
Proof. intros H; inversion H; discriminate. Qed.

Lemma path_join_app (root : path) (d : string) (rel : list string) :
  path_app (path_join root d) rel = path_app root (d :: rel).
Proof. unfold path_app, path_join. rewrite <- app_assoc. reflexivity. Qed.

(** What the walk yields: each file of the tree whose path is kept, with
    its path under the root; nothing else. *)
Lemma walk_spec (t : PackageAnsible.tree) :
  forall (root p : path) (data : string),
    In (p, data) (PackageAnsible.walk root t) <->
    exists rel, p = path_app root rel /\
                PackageAnsible.file_at t rel data /\
                PackageAnsible.kept rel = true.
Proof.
  induction t as [d|children IH] using PackageAnsible.tree_induction; intros root p data.
  - cbn [PackageAnsible.walk]. split; [intros [] | intros (rel & _ & H & _); inversion H].
  - rewrite walk_dir, in_app_iff, files_here_spec, in_flat_map. split.
    + intros [(name & Hp & Hin & Hk) | ([d sub] & Hin & Hw)].
      * exists [name]. split; [exact Hp|]. split; [constructor; exact Hin|].
        cbn [PackageAnsible.kept]. rewrite Hk. reflexivity.
      * cbn [fst snd] in Hw. rewrite Forall_forall in IH. pose proof (IH _ Hin) as IHs.
        cbn [snd] in IHs. destruct sub as [x|cs]; [destruct Hw|].
        destruct (PackageAnsible.kept_dir d) eqn:Hd; [|destruct Hw].
        apply IHs in Hw. destruct Hw as (rel & Hp & Hf & Hk).
        exists (d :: rel). rewrite <- path_join_app. split; [exact Hp|].
        split; [econstructor; eauto|].
        rewrite kept_cons by (eapply file_at_nonempty; eauto). rewrite Hd, Hk. reflexivity.
    + intros (rel & Hp & Hf & Hk). inversion Hf as [cs name dt Hin | cs d sub rel' dt Hin Hsub]; subst.
      * left. exists name. repeat split; auto.
        cbn [PackageAnsible.kept] in Hk. destruct (PackageAnsible.skipped_file name); [discriminate|reflexivity].
      * right. exists (d, sub). split; [exact Hin|]. cbn [fst snd].
        rewrite kept_cons in Hk by (eapply file_at_nonempty; eauto).
        apply andb_true_iff in Hk as [Hd Hk].
        rewrite Forall_forall in IH. pose proof (IH _ Hin) as IHs. cbn [snd] in IHs.
        destruct sub as [x|cs]; [inversion Hsub|]. rewrite Hd.
        apply IHs. exists rel'. rewrite path_join_app. auto.
Qed.

Lemma removelast_shorter {A} (l : list A) : List.length (removelast l) <= List.length l.
Proof.
  induction l as [|a [|b r] IH]; cbn [removelast List.length] in *; lia.
Qed.

Lemma relpath_app (dir rel : path) :
  PackageAnsible.relpath (path_app dir rel) (dirname dir)
  = path_app (PackageAnsible.relpath dir (dirname dir)) rel.
Proof.
  unfold PackageAnsible.relpath, path_app, dirname. rewrite skipn_app.
  replace (List.length (removelast dir) - List.length dir) with 0
    by (pose proof (removelast_shorter dir); lia).
  reflexivity.
Qed.

(** From its parent a directory is reached by its own name. *)
Lemma relpath_self (dir : path) :
  dir <> [] -> PackageAnsible.relpath dir (dirname dir) = [last dir ""].
Proof.
  unfold PackageAnsible.relpath, dirname.
  induction dir as [|a [|b r] IH]; intros H; [congruence|reflexivity|].
  change (skipn (List.length (removelast (b :: r))) (b :: r) = [last (b :: r) ""]).
  apply IH. discriminate.
Qed.

Lemma join_cons (sep c : string) (l : list string) :
  l <> [] -> join sep (c :: l) = c ++ sep ++ join sep l.
Proof. destruct l; [congruence | reflexivity]. Qed.

Lemma join_last (sep file : string) (l : list string) :
  l <> [] -> join sep (l ++ [file])%list = join sep l ++ sep ++ file.
Proof.
  induction l as [|a [|b r] IH]; intros H; [congruence|reflexivity|].
  rewrite (join_cons sep a (b :: r)) by discriminate.
  rewrite !str_append_assoc, <- IH by discriminate.
  reflexivity.
Qed.

(** A prefix without the separator is looked for in the first piece only. *)
Lemma starts_with_piece (sep : ascii) (q x y : string) :
  str_contains (String sep "") q = false ->
  starts_with q (x ++ String sep y) = starts_with q x.
Proof.
  revert x. induction q as [|c q IH]; intros x Hq; [reflexivity|].
  cbn [str_contains starts_with] in Hq.
  apply orb_false_iff in Hq as [Hc Hq].
  destruct x as [|d x]; cbn [append starts_with].
  - destruct (Ascii.eqb c sep) eqn:Hcs; [|reflexivity].
    apply Ascii.eqb_eq in Hcs. subst c. rewrite Ascii.eqb_refl in Hc.
    discriminate.
  - rewrite IH; [reflexivity|]. exact Hq.
Qed.

(** A suffix without the separator is looked for in the last piece only. *)
Lemma ends_with_piece (sep : ascii) (suffix x y : string) :
  str_contains (String sep "") (str_rev suffix) = false ->
  ends_with suffix (x ++ String sep y) = ends_with suffix y.
Proof.
  intros H. unfold ends_with.
  change (String sep y) with (String sep "" ++ y).
  rewrite !str_rev_append, str_append_assoc.
  change (str_rev (String sep "") ++ str_rev x) with (String sep (str_rev x)).
  apply starts_with_piece. exact H.
Qed.

Lemma skipped_file_piece (x y : string) :
  PackageAnsible.skipped_file (x ++ String "/" y) = PackageAnsible.skipped_file y.
Proof.
  unfold PackageAnsible.skipped_file, PackageAnsible.skipped_suffixes.
  cbn [existsb]. rewrite !ends_with_piece by reflexivity. reflexivity.
Qed.

Lemma kept_last (rel : list string) :
  PackageAnsible.kept rel = true -> rel <> [] /\ PackageAnsible.skipped_file (last rel "") = false.
Proof.
  induction rel as [|a [|b r] IH]; intros H; [discriminate| |].
  - split; [discriminate|]. cbn [PackageAnsible.kept last] in *.
    destruct (PackageAnsible.skipped_file a); [discriminate|reflexivity].
  - rewrite kept_cons in H by discriminate. apply andb_true_iff in H as [_ H].
    split; [discriminate|]. apply IH in H as [_ H]. exact H.
Qed.

Lemma skipped_file_join (rel : list string) :
  rel <> [] ->
  PackageAnsible.skipped_file (join "/" rel) = PackageAnsible.skipped_file (last rel "").
Proof.
  induction rel as [|a [|b r] IH]; intros H; [congruence|reflexivity|].
  rewrite join_cons by discriminate. change ("/" ++ ?x) with (String "/" x).
  rewrite skipped_file_piece. apply IH. discriminate.
Qed.




(** *** From the archive to the workspace *)

Lemma str_rev_cons (c : ascii) (s : string) : str_rev (String c s) = str_rev s ++ String c "".
Proof. change (String c s) with (String c "" ++ s). now rewrite str_rev_append. Qed.

Lemma no_sep_cons (sep c : ascii) (s : string) :
  str_contains (String sep "") (String c s) = false ->
  Ascii.eqb c sep = false /\ str_contains (String sep "") s = false.
Proof.
  cbn [str_contains starts_with]. intros H. apply orb_false_iff in H as [Hc Hs].
  split; [|exact Hs]. rewrite Ascii.eqb_sym. destruct (Ascii.eqb sep c); [|reflexivity].
  destruct s; discriminate.
Qed.

(** Splitting at the separator what was joined with it. *)
Lemma split_onto_piece (sep : ascii) (c rest cur : string) :
  str_contains (String sep "") c = false ->
  split_onto sep (c ++ String sep rest) cur = (str_rev cur ++ c) :: split_onto sep rest "".
Proof.
  revert cur. induction c as [|d c IH]; intros cur H; cbn [append split_onto].
  - rewrite Ascii.eqb_refl, str_append_nil_r. reflexivity.
  - apply no_sep_cons in H as [Hd H]. rewrite Hd, IH by exact H.
    rewrite str_rev_cons, str_append_assoc. reflexivity.
Qed.

Lemma split_onto_last (sep : ascii) (c cur : string) :
  str_contains (String sep "") c = false ->
  split_onto sep c cur = [str_rev cur ++ c].
Proof.
  revert cur. induction c as [|d c IH]; intros cur H; cbn [split_onto].
  - now rewrite str_append_nil_r.
  - apply no_sep_cons in H as [Hd H]. rewrite Hd, IH by exact H.
    rewrite str_rev_cons, str_append_assoc. reflexivity.
Qed.

Lemma split_join (sep : ascii) (l : list string) :
  l <> [] ->
  Forall (fun c => str_contains (String sep "") c = false) l ->
  split sep (join (String sep "") l) = l.
Proof.
  unfold split.
  induction l as [|a [|b r] IH]; intros Hne Hl; [congruence| |].
  - inversion Hl; subst. cbn [join String.concat]. now rewrite split_onto_last.
  - inversion Hl as [|? ? Ha Hr]; subst.
    rewrite join_cons by discriminate.
    change (String sep "" ++ ?x) with (String sep x).
    rewrite split_onto_piece by exact Ha.
    rewrite IH by (discriminate || exact Hr). reflexivity.
Qed.

Lemma plain_name_parts (c : string) :
  plain_name c = true ->
  str_contains "/" c = false /\ c <> "" /\
  existsb (String.eqb c) [""; "."; ".."] = false.
Proof.
  unfold plain_name. intros H. apply andb_true_iff in H as [H1 H2].
  apply negb_true_iff in H1, H2. split; [exact H1|]. split; [|exact H2].
  intros ->. discriminate.
Qed.

(** [zipfile] finds again the components a plain path was joined from. *)
Lemma entry_components_join (comps : list string) :
  comps <> [] -> Forall (fun c => plain_name c = true) comps ->
  entry_components [""; "."; ".."] (join "/" comps) = comps.
Proof.
  intros Hne Hp. unfold entry_components.
  rewrite (split_join "/"%char comps Hne).
  - clear Hne. induction Hp as [|c l Hc Hl IH]; [reflexivity|].
    cbn [filter]. apply plain_name_parts in Hc as (_ & _ & Hc). rewrite Hc.
    cbn [negb]. now rewrite IH.
  - eapply Forall_impl; [|exact Hp]. intros c Hc. now apply plain_name_parts in Hc.
Qed.

Lemma starts_with_rev_plain (sep : ascii) (y z : string) :
  str_contains (String sep "") y = false -> y <> "" ->
  starts_with (String sep "") (str_rev y ++ z) = false.
Proof.
  revert z. induction y as [|c y IH]; intros z H Hne; [congruence|].
  apply no_sep_cons in H as [Hc H]. rewrite str_rev_cons, str_append_assoc.
  destruct y as [|d y].
  - cbn [str_rev append starts_with]. unfold str_rev. cbn.
    rewrite Ascii.eqb_sym, Hc. reflexivity.
  - apply IH; [exact H | discriminate].
Qed.

Lemma join_ends_with_last (sep : string) (comps : list string) :
  comps <> [] -> exists pre, join sep comps = pre ++ last comps "".
Proof.
  induction comps as [|a [|b r] IH]; intros Hne; [congruence| |].
  - exists "". reflexivity.
  - destruct IH as [pre Hpre]; [discriminate|].
    exists (a ++ sep ++ pre). rewrite join_cons by discriminate.
    rewrite Hpre, !str_append_assoc. reflexivity.
Qed.

(** A path joined from plain names does not end in the separator. *)
Lemma join_not_dir (comps : list string) :
  comps <> [] -> Forall (fun c => plain_name c = true) comps ->
  ends_with "/" (join "/" comps) = false.
Proof.
  intros Hne Hp. destruct (join_ends_with_last "/" comps Hne) as [pre ->].
  assert (Hl : plain_name (last comps "") = true).
  { rewrite Forall_forall in Hp. apply Hp.
    destruct (exists_last Hne) as (l & x & ->). rewrite last_last.
    apply in_or_app. right. left. reflexivity. }
  apply plain_name_parts in Hl as (Hs & Hn & _).
  unfold ends_with. rewrite str_rev_append. now apply starts_with_rev_plain.
Qed.

Lemma path_eqb_neq (p q : path) : p <> q -> path_eqb p q = false.
Proof.
  intros H. destruct (path_eqb p q) eqn:Hpq; [|reflexivity].
  apply path_eqb_eq in Hpq. contradiction.
Qed.

(** [os.makedirs] leaves what exists as it is. *)
Lemma fs_lookup_makedirs (qs : list path) (f f' : filesystem) (q : path) (n : node) :
  fs_makedirs qs f = Ok f' -> fs_lookup q f = Some n -> fs_lookup q f' = Some n.
Proof.
  revert f. induction qs as [|r qs IH]; intros f; cbn [fs_makedirs].
  - now intros [= <-].
  - destruct (fs_lookup r f) as [[|d m]|] eqn:Hr; [apply IH|discriminate|].
    intros H Hq. eapply IH; [exact H|].
    rewrite fs_lookup_put_other; [exact Hq|].
    apply path_eqb_neq. intros ->. congruence.
Qed.

Lemma makedirs_lookup (E : platform) (p q : path) (n : node) (st st' : state) :
  makedirs E p st = (Ok tt, st') ->
  fs_lookup q (fs st) = Some n -> fs_lookup q (fs st') = Some n.
Proof.
  unfold makedirs, check_fault.
  destruct (fault E OpMakedirs p); run_monad; [discriminate|].
  destruct (fs_makedirs (prefixes_from [] p) (fs st)) as [f|e] eqn:Hm; run_monad;
    [|discriminate].
  intros H Hq. injection H as <-. cbn [fs set_fs].
  eapply fs_lookup_makedirs; eauto.
Qed.

(** A write changes the file written and no other. *)
Lemma write_text_other (E : platform) (p q : path) (data : string) (st st' : state) :
  write_text E p data st = (Ok tt, st') -> q <> p ->
  fs_lookup q (fs st') = fs_lookup q (fs st).
Proof.
  unfold write_text, check_fault.
  destruct (fault E OpWrite p); run_monad; [discriminate|].
  destruct (negb (fs_isdir (dirname p) (fs st))); run_monad; [discriminate|].
  destruct (fs_lookup p (fs st)) as [[|d m]|]; run_monad; [discriminate| |];
    intros H Hq; injection H as <-; cbn [fs set_fs];
    apply fs_lookup_put_other; now apply path_eqb_neq.
Qed.

(** [ZipFile.extractall] on one entry whose name is a plain path: when it
    succeeds the file is at that path under the target, with the entry's
    content, and what else there was is as before. *)
Lemma extract_member_plain (E : platform) (target comps : path) (data : string)
    (st st' : state) :
  comps <> [] -> Forall (fun c => plain_name c = true) comps ->
  extract_member E target (mkEntry (join "/" comps) data) st = (Ok tt, st') ->
  (exists m, fs_lookup (path_app target comps) (fs st') = Some (File data m)) /\
  (forall q n, q <> path_app target comps ->
               fs_lookup q (fs st) = Some n -> fs_lookup q (fs st') = Some n).
Proof.
  intros Hne Hp. unfold extract_member. cbn [zip_name zip_data].
  rewrite entry_components_join, join_not_dir by assumption.
  destruct comps as [|c cs]; [congruence|]. cbv zeta. intros H.
  apply bind_ok in H as (st0 & st1 & Hg & H).
  unfold get_state in Hg. injection Hg as <- <-.
  apply bind_ok in H as ([] & st2 & Hm & H).
  split; [eapply write_text_result; exact H|].
  intros q n Hq Hl. rewrite (write_text_other _ _ _ _ _ _ H Hq).
  destruct (negb (fs_exists (dirname (path_app target (c :: cs))) (fs st))).
  - eapply makedirs_lookup; eauto.
  - unfold ret in Hm. injection Hm as <-. exact Hl.
Qed.

(** Extracting entries with plain names: when all went well, at the path
    of each there is a file holding the content of an entry of that path
    (the last one, when several have the same). *)
Lemma extract_items (E : platform) (target : path) (all : list (path * string))
    (items : list (path * string)) :
  incl items all ->
  Forall (fun i => fst i <> [] /\ Forall (fun c => plain_name c = true) (fst i)) items ->
  forall st st',
    for_each (extract_member E target)
      (map (fun i => mkEntry (join "/" (fst i)) (snd i)) items) st = (Ok tt, st') ->
    forall comps,
      (exists d m, In (comps, d) all /\
                   fs_lookup (path_app target comps) (fs st) = Some (File d m)) \/
      (exists d, In (comps, d) items) ->
      exists d m, In (comps, d) all /\
                  fs_lookup (path_app target comps) (fs st') = Some (File d m).
Proof.
  induction items as [|[cs data] items IH]; intros Hincl Hp st st' H comps Hc.
  - cbn [map for_each] in H. unfold ret in H. injection H as <-.
    destruct Hc as [Hc|[d []]]. exact Hc.
  - cbn [map for_each fst snd] in H.
    apply bind_ok in H as ([] & st1 & He & H).
    inversion Hp as [|? ? [Hne Hcs] Hrest]; subst. cbn [fst] in Hne, Hcs.
    apply extract_member_plain in He as [[m Hw] Hother]; [|assumption|assumption].
    apply (IH (fun i Hi => Hincl i (or_intror Hi)) Hrest st1 st' H comps).
    destruct (list_eq_dec string_dec comps cs) as [->|Hneq].
    + left. exists data, m. split; [apply Hincl; left; reflexivity | exact Hw].
    + assert (Hq : path_app target comps <> path_app target cs).
      { intros Heq. apply app_inv_head in Heq. contradiction. }
      destruct Hc as [(d & m' & Hin & Hl)|(d & [Heq|Hin])].
      * left. exists d, m'. split; [exact Hin|]. now apply Hother.
      * injection Heq as -> ->. contradiction.
      * right. exists d. exact Hin.
Qed.

(** The paths walked from a root are those walked from nowhere, put under
    the root. *)
Lemma walk_root (root p : path) (t : PackageAnsible.tree) (data : string) :
  In (p, data) (PackageAnsible.walk root t) <->
  exists rel, p = path_app root rel /\ In (rel, data) (PackageAnsible.walk [] t).
Proof.
  rewrite walk_spec. split.
  - intros (rel & Hp & Hf & Hk). exists rel. split; [exact Hp|].
    apply walk_spec. exists rel. auto.
  - intros (rel & Hp & Hin). apply walk_spec in Hin as (rel' & -> & Hf & Hk).
    exists rel'. auto.
Qed.



(** *** The script's exit status *)

(** X16.  [package_ansible.main] exits with 0 or 1, and with 0 exactly
    when the directory exists, the archive could be written and, if
    [--upload] was given, a bucket that is not empty was named and the
    upload went through. *)
Theorem main_exit_status (H : PackageAnsible.host) (a : PackageAnsible.args) :
  (fst (PackageAnsible.main H a) = 0%Z \/ fst (PackageAnsible.main H a) = 1%Z) /\
  (fst (PackageAnsible.main H a) = 0%Z <->
   PackageAnsible.disk H (PackageAnsible.arg_ansible_dir a) <> None /\
   PackageAnsible.zip_error H (PackageAnsible.arg_output a) = None /\
   (PackageAnsible.arg_upload a = false \/
    exists bucket,
      PackageAnsible.arg_s3_bucket a = Some bucket /\ bucket <> "" /\
      PackageAnsible.upload_error H (PackageAnsible.arg_output a) bucket
        (PackageAnsible.arg_s3_key a) = None)).
Proof.
  unfold PackageAnsible.main, PackageAnsible.create_ansible_package,
    PackageAnsible.upload_to_s3.
  destruct (PackageAnsible.disk H (PackageAnsible.arg_ansible_dir a)) as [t|];
    cbn [fst]; [|split; [now right|]; split; [discriminate | intros [Hd _]; congruence]].
  destruct (PackageAnsible.zip_error H (PackageAnsible.arg_output a)) as [e|];
    cbn [fst]; [split; [now right|]; split; [discriminate | intros (_ & Hz & _); discriminate]|].
  destruct (PackageAnsible.arg_upload a); cbn [fst];
    [|split; [now left|]; split; [intros _; repeat split; [discriminate | now left] | reflexivity]].
  destruct (PackageAnsible.arg_s3_bucket a) as [bucket|]; cbn [fst];
    [|split; [now right|]; split;
      [discriminate | intros (_ & _ & [Hu|(b & Hb & _)]); discriminate]].
  destruct (String.eqb_spec bucket "") as [->|Hb]; cbn [fst].
  { split; [now right|]. split; [discriminate|].
    intros (_ & _ & [Hu|(b & Heq & Hne & _)]); [discriminate|].
    injection Heq as <-. congruence. }
  destruct (PackageAnsible.upload_error H (PackageAnsible.arg_output a) bucket
              (PackageAnsible.arg_s3_key a)) as [e|] eqn:Hup; cbn [fst].
  - split; [now right|]. split; [discriminate|].
    intros (_ & _ & [Hu|(b & Heq & _ & Hnone)]); [discriminate|].
    injection Heq as <-. congruence.
  - split; [now left|]. split; [|reflexivity].
    intros _. repeat split; [discriminate|]. right. exists bucket. auto.
Qed.

(** X17.  What a run of [package_ansible.main] has done.  The archive is
    written before the upload is looked at: whenever the directory exists
    and the archive can be written, the archive of the directory is
    written, also in a run that then exits with 1 for want of a bucket or
    for a failed upload; when the directory does not exist nothing is
    written.  An upload is made only in a run that exits with 0, and then
    it is the upload of the archive written, to the bucket and key given. *)
Theorem main_effects (H : PackageAnsible.host) (a : PackageAnsible.args) :
  (PackageAnsible.disk H (PackageAnsible.arg_ansible_dir a) = None ->
   snd (PackageAnsible.main H a) = PackageAnsible.mkEffects [] []) /\
  (forall t,
     PackageAnsible.disk H (PackageAnsible.arg_ansible_dir a) = Some t ->
     PackageAnsible.zip_error H (PackageAnsible.arg_output a) = None ->
     PackageAnsible.packages (snd (PackageAnsible.main H a))
     = [(PackageAnsible.arg_output a,
         PackageAnsible.package_entries (PackageAnsible.arg_ansible_dir a) t)]) /\
  (forall u,
     In u (PackageAnsible.uploads (snd (PackageAnsible.main H a))) ->
     fst (PackageAnsible.main H a) = 0%Z /\
     PackageAnsible.arg_upload a = true /\
     PackageAnsible.packages (snd (PackageAnsible.main H a)) <> [] /\
     exists bucket,
       PackageAnsible.arg_s3_bucket a = Some bucket /\ bucket <> "" /\
       u = (PackageAnsible.arg_output a, bucket, PackageAnsible.arg_s3_key a)).
Proof.
  unfold PackageAnsible.main, PackageAnsible.create_ansible_package,
    PackageAnsible.upload_to_s3.
  split; [intros ->; reflexivity|].
  destruct (PackageAnsible.disk H (PackageAnsible.arg_ansible_dir a)) as [t|];
    [|split; [discriminate | intros u []]].
  destruct (PackageAnsible.zip_error H (PackageAnsible.arg_output a)) as [e|];
    [split; [discriminate | intros u []]|].
  destruct (PackageAnsible.arg_upload a);
    [|split; [intros t' [= <-] _; reflexivity | intros u []]].
  destruct (PackageAnsible.arg_s3_bucket a) as [bucket|];
    [|split; [intros t' [= <-] _; reflexivity | intros u []]].
  destruct (String.eqb_spec bucket "") as [->|Hb];
    [split; [intros t' [= <-] _; reflexivity | intros u []]|].
  destruct (PackageAnsible.upload_error H (PackageAnsible.arg_output a) bucket
              (PackageAnsible.arg_s3_key a));
    (split; [intros t' [= <-] _; reflexivity|]); [intros u []|].
  cbn [fst snd PackageAnsible.uploads PackageAnsible.packages].
  intros u [<-|[]]. repeat split; [discriminate|]. exists bucket. auto.
Qed.

Lemma main_effects_witness :
  PackageAnsible.packages
    (snd (PackageAnsible.main PackageAnsible.sample_host
            (PackageAnsible.mkArgs ["src"; "ansible"] ["ansible-playbooks.zip"] None
               "ansible/ansible-playbooks.zip" true)))
  = [(["ansible-playbooks.zip"],
      PackageAnsible.package_entries ["src"; "ansible"] PackageAnsible.sample)].
Proof.
  apply (proj1 (proj2 (main_effects PackageAnsible.sample_host
                         (PackageAnsible.mkArgs ["src"; "ansible"] ["ansible-playbooks.zip"]
                            None "ansible/ansible-playbooks.zip" true)))
           PackageAnsible.sample); reflexivity.
Defined.
